(** * sol-tx: wallet import and SOL transfer

    Shallow embedding of class [TransferManager] (transfer.ts, lines 12 to
    175), of class [WalletManager] (wallet.ts, kept in
    transfer.ts as lines 219 to 328) and of [importWallet]
    (index.ts, lines 72 to 94), with the properties their specification
    states.

    - JavaScript numbers are IEEE-754 binary64 values ([SpecFloat], round
      to nearest even), so that [amountSOL * LAMPORTS_PER_SOL] and
      [fee.value / LAMPORTS_PER_SOL] round as they do at run time.
    - Byte arrays ([Uint8Array]) are lists of integers in [0, 256); strings
      are byte strings.
    - Asynchronous code runs in a state-and-exception monad: the state
      records the RPC calls made so far and the console lines printed, a
      thrown JavaScript error is the [Throw] outcome.
    - The RPC node is an oracle whose answers may depend on the moment of
      the call (the number of calls made before it).
    - Of the libraries the repository calls, [bs58] is modelled from its
      documented behaviour; the ed25519 key derivation, [JSON.parse] and
      the conversion of non-numeric values to numbers are parameters of
      the development. *)

From Stdlib Require Import ZArith String Ascii List Bool Lia SpecFloat.
From Stdlib Require Import DecimalString.
Import ListNotations.
Local Open Scope Z_scope.

(* ------------------------------------------------------------------------- *)
(** * JavaScript numbers *)

Module Num.

Definition number := spec_float.

Definition prec : Z := 53.
Definition emax : Z := 1024.

(** An integer read into a number (nearest double). *)
Definition of_Z (z : Z) : number := binary_normalize prec emax z 0 false.

Definition mul : number -> number -> number := SFmul prec emax.
Definition div : number -> number -> number := SFdiv prec emax.
Definition add : number -> number -> number := SFadd prec emax.

(** [x < y]; false as soon as one side is NaN. *)
Definition lt (x y : number) : bool := SFltb x y.

Definition zero : number := S754_zero false.

(** Truthiness of a number: [0], [-0] and [NaN] are falsy. *)
Definition truthy (x : number) : bool :=
  match x with
  | S754_zero _ | S754_nan => false
  | _ => true
  end.

(** Integer part, rounding toward zero (0 for NaN and the infinities). *)
Definition trunc (x : number) : Z :=
  match x with
  | S754_finite s m e =>
      let a := if 0 <=? e then Zpos m * 2 ^ e else Zpos m / 2 ^ (- e) in
      if s then - a else a
  | _ => 0
  end.

(** [BigInt(x)]: defined on the integral finite numbers only, a
    [RangeError] otherwise. *)
Definition to_bigint (x : number) : option Z :=
  match x with
  | S754_zero _ => Some 0
  | S754_finite s m e =>
      if (0 <=? e) || (Zpos m mod 2 ^ (- e) =? 0) then Some (trunc x) else None
  | _ => None
  end.

(** [ToUint8]: truncate, then reduce modulo 2^8. *)
Definition to_uint8 (x : number) : Z := trunc x mod 256.

Definition LAMPORTS_PER_SOL : number := of_Z 1000000000.

End Num.

Import Num.

(* ------------------------------------------------------------------------- *)
(** * Generic list helpers *)

Section Leading.
Context {A : Type} (p : A -> bool).

(** Length of the longest prefix whose elements all satisfy [p]. *)
Fixpoint leading (l : list A) : nat :=
  match l with
  | x :: r => if p x then S (leading r) else O
  | [] => O
  end.
End Leading.

(* ------------------------------------------------------------------------- *)
(** * Base-58 (package [bs58], Bitcoin alphabet)

  [bs58.encode] maps every leading zero byte to the leader character ['1']
  and writes the remaining bytes, read as one big-endian integer, in base
  58. [bs58.decode] throws on a character outside the alphabet and
  otherwise inverts this. *)

Module Base58.

Definition ALPHABET : string :=
  "123456789ABCDEFGHJKLMNPQRSTUVWXYZabcdefghijkmnopqrstuvwxyz".
Definition BASE : Z := 58.
Definition LEADER : ascii := "1"%char.

Definition alphabet : list ascii := list_ascii_of_string ALPHABET.

Fixpoint index_of (c : ascii) (l : list ascii) (i : Z) : option Z :=
  match l with
  | [] => None
  | x :: r => if Ascii.eqb c x then Some i else index_of c r (i + 1)
  end.

(** [BASE_MAP[charCode]]; [None] is the table's "invalid" mark. *)
Definition BASE_MAP (c : ascii) : option Z := index_of c alphabet 0.

(** [ALPHABET.charAt(d)] *)
Definition char_at (d : Z) : ascii := nth (Z.to_nat d) alphabet LEADER.

(** Value of a big-endian digit string in base [b]. *)
Definition of_digits (b : Z) (ds : list Z) : Z :=
  fold_left (fun a d => a * b + d) ds 0.

(** Big-endian digits of [n] in base [b], without leading zero digit. *)
Fixpoint to_digits_from (b : Z) (fuel : nat) (n : Z) (acc : list Z) : list Z :=
  match fuel with
  | O => acc
  | S f => if n <=? 0 then acc
           else to_digits_from b f (n / b) (n mod b :: acc)
  end.

Definition to_digits (b n : Z) : list Z :=
  to_digits_from b (S (Z.to_nat (Z.log2 n))) n [].

(** A digit string is canonical in base [b]: digits in range, no leading
    zero. *)
Definition canonical (b : Z) (ds : list Z) : Prop :=
  Forall (fun d => 0 <= d < b) ds /\
  match ds with [] => True | d :: _ => d <> 0 end.

Definition encode (source : list Z) : string :=
  let zeroes := leading (Z.eqb 0) source in
  let digits := to_digits BASE (of_digits 256 source) in
  string_of_list_ascii (repeat LEADER zeroes ++ map char_at digits).

Fixpoint map_opt {A B} (f : A -> option B) (l : list A) : option (list B) :=
  match l with
  | [] => Some []
  | x :: r =>
      match f x, map_opt f r with
      | Some y, Some ys => Some (y :: ys)
      | _, _ => None
      end
  end.

(** [None] stands for the thrown [Error("Non-base58 character")]. *)
Definition decode (s : string) : option (list Z) :=
  let source := list_ascii_of_string s in
  let zeroes := leading (Ascii.eqb LEADER) source in
  match map_opt BASE_MAP source with
  | None => None
  | Some digits =>
      Some (repeat 0 zeroes ++ to_digits 256 (of_digits BASE digits))
  end.

End Base58.

(* ------------------------------------------------------------------------- *)
(** * Data of the SDK ([@solana/web3.js]) *)

(** A [Uint8Array]. *)
Definition bytes := list Z.

Definition is_bytes (l : bytes) : Prop := Forall (fun d => 0 <= d < 256) l.

(** A public key is its 32 bytes. *)
Definition PublicKey := bytes.

(** [PublicKey.prototype.toBase58] *)
Definition toBase58 (k : PublicKey) : string := Base58.encode k.

(** [Keypair]: the secret key is the 32-byte seed followed by the 32-byte
    public key. *)
Record Keypair := { publicKey : PublicKey; secretKey : bytes }.

(** The part of [AccountInfo] the repository reads. *)
Record AccountInfo := { owner : PublicKey; lamports : Z }.

(** A transfer instruction of the system program; [transfer_lamports] is the
    amount after [BigInt(params.lamports)]. *)
Record Instruction :=
  { fromPubkey : PublicKey; toPubkey : PublicKey; transfer_lamports : Z }.

Record Transaction :=
  { instructions : list Instruction;
    recentBlockhash : option string;
    feePayer : option PublicKey }.

(** Result of [Transaction.prototype.compileMessage]. *)
Record Message :=
  { message_payer : PublicKey;
    message_blockhash : string;
    message_instructions : list Instruction }.

(** Values produced by [JSON.parse]. *)
#[warnings="-register-all"]
Inductive JSValue :=
| JNull
| JBool (b : bool)
| JNum (n : number)
| JStr (s : string)
| JArr (items : list JSValue)
| JObj (fields : list (string * JSValue)).

(* ------------------------------------------------------------------------- *)
(** * Errors

    The repository throws plain [Error] objects; an error is told from the
    others by its message, so [ErrorMessage] has one constructor per message
    template of the source, carrying the interpolated values. *)

Inductive ErrorMessage :=
(** [sendSOL], line 42: "Invalid sender account. This account is owned
    by program ${owner} and cannot be used to pay transaction fees. ..." *)
| InvalidSenderAccount (ownerBase58 : string)
(** [sendSOL], line 63: "Insufficient balance. You have ${have} SOL, but
    need ${need} SOL (${amount} SOL + ${fee} SOL fee)" *)
| InsufficientBalance (haveSOL needSOL amountSOL feeSOL : number)
(** [sendSOL], line 106: "Transaction failed: ${message}\nLogs: ${logs}" *)
| TransactionFailed (message : string) (logs : string)
(** constructor, lines 230 and 241: "Invalid private key length: expected
    64 bytes, got ${n}" *)
| InvalidPrivateKeyLength (got : nat)
(** constructor, line 247: "Invalid private key format" *)
| InvalidPrivateKeyFormatInner
(** constructor, line 250: "Invalid private key format. Please provide a
    base58 encoded private key or array of 64 numbers." *)
| InvalidPrivateKeyFormat
(** [validateForTransactions], line 313: "This account is owned by
    program ${owner} and cannot sign transactions. ..." *)
| AccountCannotSign (ownerBase58 : string).

Inductive JsError :=
(** [new Error(...)] of the repository *)
| Error (m : ErrorMessage)
(** the SDK's [SendTransactionError] *)
| SendTransactionError (message : string)
(** [RangeError] of [BigInt(x)] on a number that is not an integer *)
| RangeError
(** any other error of the SDK, of a library or of the RPC transport *)
| SdkError (message : string).


(* ------------------------------------------------------------------------- *)
(** * Effects: RPC calls, console, exceptions *)

Inductive Call :=
| GetAccountInfo (k : PublicKey)
| GetBalance (k : PublicKey)
| GetLatestBlockhash
| GetFeeForMessage (m : Message)
(** [sendAndConfirmTransaction]: signs with [signers], submits with
    [maxRetries] and waits for [commitment]. *)
| SendAndConfirmTransaction (t : Transaction) (signers : list Keypair)
    (commitment : string) (maxRetries : Z)
(** [SendTransactionError.prototype.getLogs] *)
| GetLogs.

Inductive ConsoleLine :=
| LogValidating
| LogFrom (k : string)
| LogTo (k : string)
| LogAmount (amountSOL : number)
| LogCurrentBalance (sol : number)
| LogEstimatedFee (sol : number)
| LogSending
| ErrTransactionFailedWithLogs (logs : option (list string))
| LogWalletLoaded
| LogPublicKey (k : string)
| LogValidationPassed
| LogNotOnChainYet
| LogWalletImported
| ErrImportingWallet (e : JsError)
| LogErrorHelp (e : JsError).

Record State := { calls : list Call; console : list ConsoleLine }.

Definition initial : State := {| calls := []; console := [] |}.

Inductive Outcome (A : Type) :=
| Return (a : A)
| Throw (e : JsError).
Arguments Return {A} a.
Arguments Throw {A} e.

(** What an awaited SDK call rejects with. *)
Inductive RpcError :=
| RpcSendTransactionError (message : string)
| RpcFailure (message : string).

Definition thrown (e : RpcError) : JsError :=
  match e with
  | RpcSendTransactionError m => SendTransactionError m
  | RpcFailure m => SdkError m
  end.

Inductive Response (A : Type) :=
| Resolved (a : A)
| Rejected (e : RpcError).
Arguments Resolved {A} a.
Arguments Rejected {A} e.

(** The RPC node. Each answer may depend on the moment of the call, given
    as the number of calls made before it. Lamport amounts are the integers
    of the wire format. *)
Record Connection :=
  { rpc_getAccountInfo : nat -> PublicKey -> Response (option AccountInfo);
    rpc_getBalance : nat -> PublicKey -> Response Z;
    rpc_getLatestBlockhash : nat -> Response string;
    rpc_getFeeForMessage : nat -> Message -> Response (option Z);
    rpc_sendAndConfirm : nat -> Transaction -> list Keypair -> Response string;
    rpc_getLogs : nat -> Response (option (list string)) }.

Definition Js (A : Type) : Type := State -> Outcome A * State.

Definition ret {A} (a : A) : Js A := fun st => (Return a, st).

Definition throw {A} (e : JsError) : Js A := fun st => (Throw e, st).

Definition bind {A B} (m : Js A) (k : A -> Js B) : Js B :=
  fun st =>
    match m st with
    | (Return a, st') => k a st'
    | (Throw e, st') => (Throw e, st')
    end.

(** [try { m } catch (error) { handler error }] *)
Definition try_catch {A} (m : Js A) (handler : JsError -> Js A) : Js A :=
  fun st =>
    match m st with
    | (Return a, st') => (Return a, st')
    | (Throw e, st') => handler e st'
    end.

Definition console_log (l : ConsoleLine) : Js unit :=
  fun st => (Return tt, {| calls := calls st; console := console st ++ [l] |}).

(** One awaited round trip. *)
Definition request {A} (c : Call) (answer : nat -> Response A) : Js A :=
  fun st =>
    let st' := {| calls := calls st ++ [c]; console := console st |} in
    match answer (length (calls st)) with
    | Resolved a => (Return a, st')
    | Rejected e => (Throw (thrown e), st')
    end.

Declare Scope js_scope.
Delimit Scope js_scope with js.
Notation "x <- m ;; k" := (bind m (fun x => k))
  (at level 61, m at next level, right associativity) : js_scope.
Notation "m ;; k" := (bind m (fun _ => k))
  (at level 61, right associativity) : js_scope.
Local Open Scope js_scope.

(** ** The [Connection] methods the repository awaits *)

Definition getAccountInfo (connection : Connection) (k : PublicKey)
  : Js (option AccountInfo) :=
  request (GetAccountInfo k) (fun t => rpc_getAccountInfo connection t k).

Definition getBalance (connection : Connection) (k : PublicKey) : Js number :=
  z <- request (GetBalance k) (fun t => rpc_getBalance connection t k) ;;
  ret (of_Z z).

Definition getLatestBlockhash (connection : Connection) : Js string :=
  request GetLatestBlockhash (rpc_getLatestBlockhash connection).

(** The [value] field of the answer: a number or [null]. *)
Definition getFeeForMessage (connection : Connection) (m : Message)
  : Js (option number) :=
  v <- request (GetFeeForMessage m)
         (fun t => rpc_getFeeForMessage connection t m) ;;
  ret (option_map of_Z v).

Definition sendAndConfirmTransaction (connection : Connection)
    (t : Transaction) (signers : list Keypair)
    (commitment : string) (maxRetries : Z) : Js string :=
  request (SendAndConfirmTransaction t signers commitment maxRetries)
    (fun n => rpc_sendAndConfirm connection n t signers).

Definition getLogs (connection : Connection) : Js (option (list string)) :=
  request GetLogs (rpc_getLogs connection).

(** ** SDK functions that build a transaction *)

(** [SystemProgram.transfer]: converts the amount with [BigInt]. *)
Definition SystemProgram_transfer (from to : PublicKey) (amount : number)
  : Js Instruction :=
  match to_bigint amount with
  | Some z =>
      ret {| fromPubkey := from; toPubkey := to; transfer_lamports := z |}
  | None => throw RangeError
  end.

(** [new Transaction().add(instruction)] *)
Definition Transaction_add (i : Instruction) : Transaction :=
  {| instructions := [i]; recentBlockhash := None; feePayer := None |}.

Definition set_recentBlockhash (t : Transaction) (h : string) : Transaction :=
  {| instructions := instructions t;
     recentBlockhash := Some h;
     feePayer := feePayer t |}.

Definition set_feePayer (t : Transaction) (k : PublicKey) : Transaction :=
  {| instructions := instructions t;
     recentBlockhash := recentBlockhash t;
     feePayer := Some k |}.

Definition compileMessage (t : Transaction) : Js Message :=
  match feePayer t, recentBlockhash t with
  | Some k, Some h =>
      ret {| message_payer := k;
             message_blockhash := h;
             message_instructions := instructions t |}
  | None, _ => throw (SdkError "Transaction fee payer required")
  | _, None => throw (SdkError "Transaction recentBlockhash required")
  end.

(** The base-58 text of the system program's address (32 zero bytes). *)
Definition SYSTEM_PROGRAM_ID : string := "11111111111111111111111111111111".

Definition SYSTEM_PROGRAM : PublicKey := repeat 0 32.

(* ------------------------------------------------------------------------- *)
(** * The JavaScript runtime and the cryptography of the SDK

    Taken as parameters: the development holds for every choice of them. *)

Record Runtime :=
  { (** ed25519: the public key of a 32-byte seed ([getPublicKey] of the
        SDK's [utils/ed25519]) *)
    ed25519_getPublicKey : bytes -> bytes;
    (** [JSON.parse]; [None] is the thrown [SyntaxError] *)
    JSON_parse : string -> option JSValue;
    (** [ToNumber] on a string, an array or an object; [None] is a thrown
        [TypeError] *)
    ToNumber_object : JSValue -> option number }.

(** [ToNumber] *)
Definition ToNumber (rt : Runtime) (v : JSValue) : option number :=
  match v with
  | JNull => Some zero
  | JBool b => Some (if b then of_Z 1 else zero)
  | JNum n => Some n
  | JStr _ | JArr _ | JObj _ => ToNumber_object rt v
  end.

(** [new Uint8Array(array)]: every element through [ToNumber] and
    [ToUint8]. *)
Fixpoint Uint8Array_from (rt : Runtime) (items : list JSValue) : Js bytes :=
  match items with
  | [] => ret []
  | v :: r =>
      match ToNumber rt v with
      | None => throw (SdkError "TypeError")
      | Some n =>
          bs <- Uint8Array_from rt r ;;
          ret (to_uint8 n :: bs)
      end
  end.

(** [bs58.decode] *)
Definition bs58_decode (s : string) : Js bytes :=
  match Base58.decode s with
  | Some b => ret b
  | None => throw (SdkError "Non-base58 character")
  end.

(** [Keypair.fromSecretKey]: the last 32 bytes must be the public key of
    the first 32. *)
Definition Keypair_fromSecretKey (rt : Runtime) (sk : bytes) : Js Keypair :=
  if negb (Nat.eqb (length sk) 64) then throw (SdkError "bad secret key size")
  else
    let pub := skipn 32 sk in
    let privateScalar := firstn 32 sk in
    if list_eq_dec Z.eq_dec pub (ed25519_getPublicKey rt privateScalar)
    then ret {| publicKey := pub; secretKey := sk |}
    else throw (SdkError "provided secretKey is invalid").

(** [Keypair.generate], given the 32 random bytes it draws. *)
Definition Keypair_generate (rt : Runtime) (seed : bytes) : Keypair :=
  let pub := ed25519_getPublicKey rt seed in
  {| publicKey := pub; secretKey := seed ++ pub |}.

(* ------------------------------------------------------------------------- *)
(** * Class [WalletManager] (transfer.ts, lines 222 to 328) *)

Module WalletManager.

Record t := { keypair : Keypair }.

Section WithRuntime.
Variable rt : Runtime.

Definition constructor (privateKey : string) : Js t :=
  kp <- try_catch
          (secretKey <- bs58_decode privateKey ;;
           if negb (Nat.eqb (length secretKey) 64)
           then throw (Error (InvalidPrivateKeyLength (length secretKey)))
           else Keypair_fromSecretKey rt secretKey)
          (fun _error =>
             try_catch
               (match JSON_parse rt privateKey with
                | None => throw (SdkError "SyntaxError")
                | Some (JArr secretKey) =>
                    if negb (Nat.eqb (length secretKey) 64)
                    then throw (Error (InvalidPrivateKeyLength
                                         (length secretKey)))
                    else
                      b <- Uint8Array_from rt secretKey ;;
                      Keypair_fromSecretKey rt b
                | Some _ => throw (Error InvalidPrivateKeyFormatInner)
                end)
               (fun _ => throw (Error InvalidPrivateKeyFormat))) ;;
  console_log LogWalletLoaded ;;
  console_log (LogPublicKey (toBase58 (publicKey kp))) ;;
  ret {| keypair := kp |}.

Definition getKeypair (w : t) : Keypair := keypair w.

Definition getPublicKey (w : t) : string := toBase58 (publicKey (keypair w)).

Definition getPrivateKey (w : t) : string :=
  Base58.encode (secretKey (keypair w)).

(** [seed] is the randomness drawn by [Keypair.generate]. *)
Definition createNew (seed : bytes) : Js t :=
  let keypair := Keypair_generate rt seed in
  let privateKey := Base58.encode (secretKey keypair) in
  constructor privateKey.

Definition isValidPrivateKey (privateKey : string) : Js bool :=
  try_catch (constructor privateKey ;; ret true) (fun _ => ret false).

Definition validateForTransactions (w : t) (connection : Connection)
  : Js unit :=
  accountInfo <- getAccountInfo connection (publicKey (keypair w)) ;;
  match accountInfo with
  | Some info =>
      let systemProgramId := SYSTEM_PROGRAM_ID in
      if negb (String.eqb (toBase58 (owner info)) systemProgramId)
      then throw (Error (AccountCannotSign (toBase58 (owner info))))
      else console_log LogValidationPassed
  | None => console_log LogNotOnChainYet
  end.

End WithRuntime.
End WalletManager.

(* ------------------------------------------------------------------------- *)
(** * Class [TransferManager] (transfer.ts, lines 12 to 175) *)

Module TransferManager.

Section WithConnection.
Variable connection : Connection.

Definition estimateTransactionFee (fromPublicKey toPublicKey : PublicKey)
    (amountSOL : number) : Js number :=
  let lamports := mul amountSOL LAMPORTS_PER_SOL in
  transferInstruction <-
    SystemProgram_transfer fromPublicKey toPublicKey lamports ;;
  let transaction := Transaction_add transferInstruction in
  blockhash <- getLatestBlockhash connection ;;
  let transaction := set_recentBlockhash transaction blockhash in
  let transaction := set_feePayer transaction fromPublicKey in
  message <- compileMessage transaction ;;
  fee <- getFeeForMessage connection message ;;
  ret (match fee with
       | Some value =>
           if truthy value then div value LAMPORTS_PER_SOL else zero
       | None => zero
       end).

Definition sendSOL (fromKeypair : Keypair) (toPublicKey : PublicKey)
    (amountSOL : number) : Js string :=
  let lamports := mul amountSOL LAMPORTS_PER_SOL in
  console_log LogValidating ;;
  console_log (LogFrom (toBase58 (publicKey fromKeypair))) ;;
  console_log (LogTo (toBase58 toPublicKey)) ;;
  console_log (LogAmount amountSOL) ;;
  senderAccountInfo <- getAccountInfo connection (publicKey fromKeypair) ;;
  match senderAccountInfo with
  | Some info =>
      if negb (String.eqb (toBase58 (owner info)) SYSTEM_PROGRAM_ID)
      then throw (Error (InvalidSenderAccount (toBase58 (owner info))))
      else ret tt
  | None => ret tt
  end ;;
  senderBalance <- getBalance connection (publicKey fromKeypair) ;;
  console_log (LogCurrentBalance (div senderBalance LAMPORTS_PER_SOL)) ;;
  estimatedFee <-
    estimateTransactionFee (publicKey fromKeypair) toPublicKey amountSOL ;;
  console_log (LogEstimatedFee estimatedFee) ;;
  let totalRequired := add lamports (mul estimatedFee LAMPORTS_PER_SOL) in
  if lt senderBalance totalRequired
  then throw (Error (InsufficientBalance
                       (div senderBalance LAMPORTS_PER_SOL)
                       (div totalRequired LAMPORTS_PER_SOL)
                       amountSOL estimatedFee))
  else
    transferInstruction <-
      SystemProgram_transfer (publicKey fromKeypair) toPublicKey lamports ;;
    let transaction := Transaction_add transferInstruction in
    blockhash <- getLatestBlockhash connection ;;
    let transaction := set_recentBlockhash transaction blockhash in
    let transaction := set_feePayer transaction (publicKey fromKeypair) in
    console_log LogSending ;;
    try_catch
      (signature <- sendAndConfirmTransaction connection transaction
                      [fromKeypair] "confirmed" 3 ;;
       ret signature)
      (fun error =>
         match error with
         | SendTransactionError message =>
             logs <- getLogs connection ;;
             console_log (ErrTransactionFailedWithLogs logs) ;;
             let joined :=
               match logs with
               | Some l => String.concat (String "010"%char EmptyString) l
               | None => EmptyString
               end in
             throw (Error (TransactionFailed message
                             (if String.eqb joined EmptyString
                              then "No logs available"%string
                              else joined)))
         | _ => throw error
         end).

Definition checkAddressExists (publicKey : PublicKey) : Js bool :=
  try_catch
    (accountInfo <- getAccountInfo connection publicKey ;;
     ret (match accountInfo with Some _ => true | None => false end))
    (fun _ => ret false).

End WithConnection.
End TransferManager.

(* ------------------------------------------------------------------------- *)
(** * [importWallet] (index.ts, lines 72 to 94) *)

(** [importWallet], given the answer to the prompt; the result is the new
    value of [state.wallet]. *)
Definition importWallet (rt : Runtime) (connection : Connection)
    (privateKey : string) : Js (option WalletManager.t) :=
  try_catch
    (w <- WalletManager.constructor rt privateKey ;;
     console_log LogWalletImported ;;
     console_log (LogPublicKey (WalletManager.getPublicKey w)) ;;
     WalletManager.validateForTransactions w connection ;;
     ret (Some w))
    (fun error =>
       console_log (ErrImportingWallet error) ;;
       console_log (LogErrorHelp error) ;;
       ret None).

(* ------------------------------------------------------------------------- *)
(** * A runtime for the examples

    [JsonText.parse] reads the JSON texts made of arrays, objects, numbers,
    [null], [true], [false] and strings without escape sequences, and
    refuses every other text. [ed25519_known] is the ed25519 key derivation
    on the two seeds the examples use (the all-zero seed and the seed of
    RFC 8032, section 7.1, test 1). *)

Module JsonText.

(** The number [(-1)^neg * m * 10^e], correctly rounded. *)
Definition of_decimal (neg : bool) (m e : Z) : number :=
  let sign (z : Z) := if neg then - z else z in
  if m =? 0 then S754_zero neg
  else if 0 <=? e then binary_normalize prec emax (sign (m * 10 ^ e)) 0 false
  else
    let d := 10 ^ (- e) in
    let k := Z.max 0 (64 + Z.log2 d - Z.log2 m) in
    let q := (m * 2 ^ k) / d in
    let sticky := if (m * 2 ^ k) mod d =? 0 then 0 else 1 in
    binary_normalize prec emax (sign (2 * q + sticky)) (- k - 1) false.

Definition is_ws (c : ascii) : bool :=
  match nat_of_ascii c with
  | 32%nat | 9%nat | 10%nat | 13%nat => true
  | _ => false
  end.

Fixpoint skip_ws (s : list ascii) : list ascii :=
  match s with
  | c :: r => if is_ws c then skip_ws r else s
  | [] => []
  end.

Definition digit_of (c : ascii) : option Z :=
  let n := Z.of_nat (nat_of_ascii c) in
  if (48 <=? n) && (n <=? 57) then Some (n - 48) else None.

(** Reads a maximal run of digits: its value continued from [acc], the
    number of digits read and the rest of the text. *)
Fixpoint digits (s : list ascii) (acc : Z) (count : Z) : Z * Z * list ascii :=
  match s with
  | c :: r =>
      match digit_of c with
      | Some d => digits r (acc * 10 + d) (count + 1)
      | None => (acc, count, s)
      end
  | [] => (acc, count, [])
  end.

Definition exponent (s : list ascii) : option (Z * list ascii) :=
  match s with
  | c :: r =>
      if Ascii.eqb c "e" || Ascii.eqb c "E" then
        let '(neg, r1) :=
          match r with
          | "-"%char :: r' => (true, r')
          | "+"%char :: r' => (false, r')
          | _ => (false, r)
          end in
        let '(x, n, r2) := digits r1 0 0 in
        if n =? 0 then None else Some (if neg then - x else x, r2)
      else Some (0, s)
  | [] => Some (0, [])
  end.

(** A JSON number: an optional minus sign, an integer part without
    superfluous leading zero, an optional fraction and an optional
    exponent. *)
Definition json_number (s : list ascii) : option (number * list ascii) :=
  let '(neg, s1) :=
    match s with
    | "-"%char :: r => (true, r)
    | _ => (false, s)
    end in
  let '(i, ni, s2) := digits s1 0 0 in
  let leading_zero :=
    match s1 with
    | "0"%char :: _ => 1 <? ni
    | _ => false
    end in
  if (ni =? 0) || leading_zero then None
  else
    let frac :=
      match s2 with
      | "."%char :: r =>
          let '(m, nf, s3) := digits r i 0 in
          if nf =? 0 then None else Some (m, nf, s3)
      | _ => Some (i, 0, s2)
      end in
    match frac with
    | None => None
    | Some (m, nf, s3) =>
        match exponent s3 with
        | None => None
        | Some (x, s4) => Some (of_decimal neg m (x - nf), s4)
        end
    end.

Definition quote : ascii := ascii_of_nat 34.
Definition backslash : ascii := ascii_of_nat 92.

(** A string literal without escape sequences, after its opening quote. *)
Fixpoint json_string (s : list ascii) (acc : list ascii)
  : option (string * list ascii) :=
  match s with
  | [] => None
  | c :: r =>
      if Ascii.eqb c quote then Some (string_of_list_ascii (rev acc), r)
      else if Ascii.eqb c backslash || (nat_of_ascii c <? 32)%nat then None
      else json_string r (c :: acc)
  end.

Fixpoint starts_with (p s : list ascii) : option (list ascii) :=
  match p, s with
  | [], _ => Some s
  | a :: p', b :: s' => if Ascii.eqb a b then starts_with p' s' else None
  | _ :: _, [] => None
  end.

Fixpoint value (fuel : nat) (s : list ascii) : option (JSValue * list ascii) :=
  match fuel with
  | O => None
  | S f =>
      match skip_ws s with
      | [] => None
      | c :: r =>
          if Ascii.eqb c "[" then
            match skip_ws r with
            | "]"%char :: r' => Some (JArr [], r')
            | _ => elements f r []
            end
          else if Ascii.eqb c "{" then
            match skip_ws r with
            | "}"%char :: r' => Some (JObj [], r')
            | _ => members f r []
            end
          else if Ascii.eqb c quote then
            match json_string r [] with
            | Some (x, r') => Some (JStr x, r')
            | None => None
            end
          else if Ascii.eqb c "n" then
            option_map (fun r' => (JNull, r'))
              (starts_with (list_ascii_of_string "ull") r)
          else if Ascii.eqb c "t" then
            option_map (fun r' => (JBool true, r'))
              (starts_with (list_ascii_of_string "rue") r)
          else if Ascii.eqb c "f" then
            option_map (fun r' => (JBool false, r'))
              (starts_with (list_ascii_of_string "alse") r)
          else
            match json_number (c :: r) with
            | Some (n, r') => Some (JNum n, r')
            | None => None
            end
      end
  end

with elements (fuel : nat) (s : list ascii) (acc : list JSValue)
  : option (JSValue * list ascii) :=
  match fuel with
  | O => None
  | S f =>
      match value f s with
      | Some (v, r) =>
          match skip_ws r with
          | ","%char :: r' => elements f r' (v :: acc)
          | "]"%char :: r' => Some (JArr (rev (v :: acc)), r')
          | _ => None
          end
      | None => None
      end
  end

with members (fuel : nat) (s : list ascii) (acc : list (string * JSValue))
  : option (JSValue * list ascii) :=
  match fuel with
  | O => None
  | S f =>
      match skip_ws s with
      | c :: r =>
          if Ascii.eqb c quote then
            match json_string r [] with
            | Some (key, r1) =>
                match skip_ws r1 with
                | ":"%char :: r2 =>
                    match value f r2 with
                    | Some (v, r3) =>
                        match skip_ws r3 with
                        | ","%char :: r4 => members f r4 ((key, v) :: acc)
                        | "}"%char :: r4 =>
                            Some (JObj (rev ((key, v) :: acc)), r4)
                        | _ => None
                        end
                    | None => None
                    end
                | _ => None
                end
            | None => None
            end
          else None
      | [] => None
      end
  end.

Definition parse (text : string) : option JSValue :=
  let s := list_ascii_of_string text in
  match value (S (length s)) s with
  | Some (v, r) =>
      match skip_ws r with
      | [] => Some v
      | _ => None
      end
  | None => None
  end.

End JsonText.

Definition zero_seed : bytes := repeat 0 32.

Definition zero_seed_public : bytes :=
  [59; 106; 39; 188; 206; 182; 164; 45; 98; 163; 168; 208; 42; 111; 13; 115;
   101; 50; 21; 119; 29; 226; 67; 166; 58; 192; 72; 161; 139; 89; 218; 41].

Definition rfc8032_seed : bytes :=
  [157; 97; 177; 157; 239; 253; 90; 96; 186; 132; 74; 244; 146; 236; 44; 196;
   68; 73; 197; 105; 123; 50; 105; 25; 112; 59; 172; 3; 28; 174; 127; 96].

Definition rfc8032_public : bytes :=
  [215; 90; 152; 1; 130; 177; 10; 183; 213; 75; 254; 211; 201; 100; 7; 58;
   14; 225; 114; 243; 218; 166; 35; 37; 175; 2; 26; 104; 247; 7; 81; 26].

Definition ed25519_known (seed : bytes) : bytes :=
  if list_eq_dec Z.eq_dec seed zero_seed then zero_seed_public
  else if list_eq_dec Z.eq_dec seed rfc8032_seed then rfc8032_public
  else [].

(** No example has a string, an array or an object as an array element. *)
Definition example_runtime : Runtime :=
  {| ed25519_getPublicKey := ed25519_known;
     JSON_parse := JsonText.parse;
     ToNumber_object := fun _ => Some S754_nan |}.

(** The keypair of RFC 8032, test 1. *)
Definition example_keypair : Keypair :=
  {| publicKey := rfc8032_public; secretKey := rfc8032_seed ++ rfc8032_public |}.

(** The recipient of the examples. *)
Definition example_recipient : PublicKey := zero_seed_public.

(** A node on which the sender's account is absent, that holds [balance]
    lamports for every key, prices every message at [fee] and confirms
    every transfer. *)
Definition steady_node (balance : Z) (fee : option Z) : Connection :=
  {| rpc_getAccountInfo := fun _ _ => Resolved None;
     rpc_getBalance := fun _ _ => Resolved balance;
     rpc_getLatestBlockhash := fun _ => Resolved "blockhash"%string;
     rpc_getFeeForMessage := fun _ _ => Resolved fee;
     rpc_sendAndConfirm := fun _ _ _ => Resolved "signature"%string;
     rpc_getLogs := fun _ => Resolved None |}.

(** A node that holds [balance] lamports for every key when asked as its
    second call, and nothing from then on. *)
Definition draining_node (balance : Z) (fee : option Z) : Connection :=
  {| rpc_getAccountInfo := fun _ _ => Resolved None;
     rpc_getBalance :=
       fun t _ => Resolved (if Nat.leb t 1 then balance else 0);
     rpc_getLatestBlockhash := fun _ => Resolved "blockhash"%string;
     rpc_getFeeForMessage := fun _ _ => Resolved fee;
     rpc_sendAndConfirm := fun _ _ _ => Resolved "signature"%string;
     rpc_getLogs := fun _ => Resolved None |}.


(** A node on which every account is owned by the program [program]. *)
Definition program_owned_node (program : PublicKey) : Connection :=
  {| rpc_getAccountInfo :=
       fun _ _ => Resolved (Some {| owner := program; lamports := 0 |});
     rpc_getBalance := fun _ _ => Resolved 0;
     rpc_getLatestBlockhash := fun _ => Resolved "blockhash"%string;
     rpc_getFeeForMessage := fun _ _ => Resolved None;
     rpc_sendAndConfirm := fun _ _ _ => Resolved "signature"%string;
     rpc_getLogs := fun _ => Resolved None |}.

(** [0.5] and the like: the double nearest to [n / d]. *)
Definition ratio (n d : Z) : number := div (of_Z n) (of_Z d).

(* ------------------------------------------------------------------------- *)
(** * Vocabulary of the statements *)

(** The moment of the next call. *)
Definition now (st : State) : nat := length (calls st).

(** What [SystemProgram.transfer] builds for an integral amount. *)
Definition transfer_instruction (from to : PublicKey) (z : Z) : Instruction :=
  {| fromPubkey := from; toPubkey := to; transfer_lamports := z |}.

(** The transaction of a transfer paid by its sender, with blockhash [h]. *)
Definition transfer_transaction (from to : PublicKey) (z : Z) (h : string)
  : Transaction :=
  {| instructions := [transfer_instruction from to z];
     recentBlockhash := Some h;
     feePayer := Some from |}.

Definition transfer_message (from to : PublicKey) (z : Z) (h : string)
  : Message :=
  {| message_payer := from;
     message_blockhash := h;
     message_instructions := [transfer_instruction from to z] |}.

(** The value [estimateTransactionFee] returns, in SOL, for the answer
    [value] of the fee query (transfer.ts, line 161). *)
Definition estimated_fee (value : option Z) : number :=
  match option_map of_Z value with
  | Some v => if truthy v then div v LAMPORTS_PER_SOL else zero
  | None => zero
  end.

(** [totalRequired] of [sendSOL] (transfer.ts, line 61). *)
Definition total_required (amountSOL : number) (value : option Z) : number :=
  add (mul amountSOL LAMPORTS_PER_SOL)
      (mul (estimated_fee value) LAMPORTS_PER_SOL).

(** The sender's account is absent or owned by the system program. *)
Definition sender_accepted (info : option AccountInfo) : Prop :=
  match info with
  | Some i => toBase58 (owner i) = SYSTEM_PROGRAM_ID
  | None => True
  end.

(** The run of [sendSOL] from [st] gets as far as comparing the balance
    with the total: the sender is accepted, the balance query answers [b]
    lamports, the amount is [z] lamports, and the fee query, made for the
    blockhash [h], answers [value]. *)
Definition reaches_check (connection : Connection) (st : State)
    (kp : Keypair) (to : PublicKey) (amountSOL : number)
    (b z : Z) (h : string) (value : option Z) : Prop :=
  (exists info,
     rpc_getAccountInfo connection (now st) (publicKey kp) = Resolved info /\
     sender_accepted info) /\
  rpc_getBalance connection (now st + 1) (publicKey kp) = Resolved b /\
  to_bigint (mul amountSOL LAMPORTS_PER_SOL) = Some z /\
  rpc_getLatestBlockhash connection (now st + 2) = Resolved h /\
  rpc_getFeeForMessage connection (now st + 3)
    (transfer_message (publicKey kp) to z h) = Resolved value.

(** The run of [sendSOL] from [st] gets as far as submitting the transfer
    of [z] lamports with blockhash [h2]. *)
Definition reaches_submission (connection : Connection) (st : State)
    (kp : Keypair) (to : PublicKey) (amountSOL : number)
    (z : Z) (h2 : string) : Prop :=
  exists b h1 value,
    reaches_check connection st kp to amountSOL b z h1 value /\
    lt (of_Z b) (total_required amountSOL value) = false /\
    rpc_getLatestBlockhash connection (now st + 4) = Resolved h2.

(** The calls of a run of [sendSOL] up to the comparison. *)
Definition calls_until_check (kp : Keypair) (to : PublicKey) (z : Z)
    (h : string) : list Call :=
  [GetAccountInfo (publicKey kp);
   GetBalance (publicKey kp);
   GetLatestBlockhash;
   GetFeeForMessage (transfer_message (publicKey kp) to z h)].

(** The calls of a run of [sendSOL] up to the submission. *)
Definition calls_until_submission (kp : Keypair) (to : PublicKey) (z : Z)
    (h1 h2 : string) : list Call :=
  calls_until_check kp to z h1 ++
  [GetLatestBlockhash;
   SendAndConfirmTransaction
     (transfer_transaction (publicKey kp) to z h2) [kp] "confirmed" 3].

(** The claim of a balance query right before the signature: whenever a
    transfer is submitted, the call just before is a balance query. *)
Definition balance_queried_right_before_signing (cs : list Call) : Prop :=
  forall before t signers commitment retries after,
    cs = before ++ SendAndConfirmTransaction t signers commitment retries
                :: after ->
    exists earlier k, before = earlier ++ [GetBalance k].




Definition is_submission (c : Call) : bool :=
  match c with
  | SendAndConfirmTransaction _ _ _ _ => true
  | _ => false
  end.


Definition newline : string := String "010"%char EmptyString.

(** [JSON.stringify(Array.from(bytes))] *)
Definition array_text (b : bytes) : string :=
  ("[" ++ String.concat ","
            (map (fun x => NilZero.string_of_uint (N.to_uint (Z.to_N x))) b)
       ++ "]")%string.

(** The keypair a 64-byte secret key stands for, when its last 32 bytes are
    the public key of its first 32. *)
Definition valid_secret_key (rt : Runtime) (sk : bytes) : Prop :=
  length sk = 64%nat /\ is_bytes sk /\
  skipn 32 sk = ed25519_getPublicKey rt (firstn 32 sk).

Definition keypair_of (sk : bytes) : Keypair :=
  {| publicKey := skipn 32 sk; secretKey := sk |}.

(** The state after the constructor's two console lines. *)
Definition wallet_loaded (st : State) (kp : Keypair) : State :=
  {| calls := calls st;
     console := (console st ++ [LogWalletLoaded])
                ++ [LogPublicKey (toBase58 (publicKey kp))] |}.

(** An array of numbers that are all integers. *)
Definition is_integer_array (items : list JSValue) : Prop :=
  Forall (fun v => exists n z, v = JNum n /\ to_bigint n = Some z) items.

(** The input is malformed in the sense of the claim: it neither decodes
    as base-58 to 64 bytes nor parses as a JSON integer array of length
    64. *)
Definition malformed_as_claimed (rt : Runtime) (raw : string) : Prop :=
  (forall b, Base58.decode raw = Some b -> length b <> 64%nat) /\
  (forall items, JSON_parse rt raw = Some (JArr items) ->
     length items = 64%nat -> ~ is_integer_array items).

(** The secret key of RFC 8032, test 1, as a JSON array whose first
    element is written [157.5] instead of [157]. *)
Definition fractional_key_text : string :=
  "[157.5,97,177,157,239,253,90,96,186,132,74,244,146,236,44,196,68,73,197,105,123,50,105,25,112,59,172,3,28,174,127,96,215,90,152,1,130,177,10,183,213,75,254,211,201,100,7,58,14,225,114,243,218,166,35,37,175,2,26,104,247,7,81,26]".

(** ** The decoding policy in the specification's words

    "Attempt encoding A (base-58) first; on failure, attempt encoding B
    (integer array via structured parse); if both fail, or the decoded
    length is wrong under either path, fail with InvalidKeyFormat", as an
    ordered list of decoders tried until one succeeds. *)

Definition checked_keypair (rt : Runtime) (sk : bytes) : option Keypair :=
  if Nat.eqb (length sk) 64 then
    if list_eq_dec Z.eq_dec (skipn 32 sk)
         (ed25519_getPublicKey rt (firstn 32 sk))
    then Some (keypair_of sk) else None
  else None.

Fixpoint coerce (rt : Runtime) (items : list JSValue) : option bytes :=
  match items with
  | [] => Some []
  | v :: r =>
      match ToNumber rt v, coerce rt r with
      | Some n, Some bs => Some (to_uint8 n :: bs)
      | _, _ => None
      end
  end.

Definition decoder_base58 (rt : Runtime) (raw : string) : option Keypair :=
  match Base58.decode raw with
  | Some b => checked_keypair rt b
  | None => None
  end.

Definition decoder_array (rt : Runtime) (raw : string) : option Keypair :=
  match JSON_parse rt raw with
  | Some (JArr items) =>
      if Nat.eqb (length items) 64 then
        match coerce rt items with
        | Some b => checked_keypair rt b
        | None => None
        end
      else None
  | _ => None
  end.

Fixpoint first_success {A B} (decoders : list (A -> option B)) (raw : A)
  : option B :=
  match decoders with
  | [] => None
  | d :: r =>
      match d raw with
      | Some x => Some x
      | None => first_success r raw
      end
  end.

Definition parseIdentity (rt : Runtime) (raw : string) : option Keypair :=
  first_success [decoder_base58 rt; decoder_array rt] raw.

(* ------------------------------------------------------------------------- *)
(** * Public keys from text (utils/helpers.ts, kept in index.ts as lines
      329 to 428) *)

(** [new PublicKey(value)] for a string: the base-58 text of 32 bytes. *)
Definition PublicKey_new (value : string) : Js PublicKey :=
  decoded <- bs58_decode value ;;
  if negb (Nat.eqb (length decoded) 32)
  then throw (SdkError "Invalid public key input")
  else ret decoded.

(** [validatePublicKey] (index.ts, lines 341 to 348) *)
Definition validatePublicKey (address : string) : Js bool :=
  try_catch (PublicKey_new address ;; ret true) (fun _ => ret false).

(* ------------------------------------------------------------------------- *)
(** * Error texts and [showErrorHelp] (index.ts, lines 27 to 70) *)

Fixpoint starts_with (needle text : list ascii) : bool :=
  match needle, text with
  | [], _ => true
  | a :: n, b :: t => Ascii.eqb a b && starts_with n t
  | _ :: _, [] => false
  end.

Fixpoint includes_list (text needle : list ascii) : bool :=
  starts_with needle text ||
  match text with
  | [] => false
  | _ :: r => includes_list r needle
  end.

(** [text.includes(needle)]. Texts are UTF-8 here; for the ASCII needles
    of the repository a match on bytes is a match on characters. *)
Definition includes (text needle : string) : bool :=
  includes_list (list_ascii_of_string text) (list_ascii_of_string needle).

(** The mark that opens several messages (U+274C, three bytes in UTF-8). *)
Definition cross_mark : string :=
  String (ascii_of_nat 226) (String (ascii_of_nat 157)
    (String (ascii_of_nat 140) EmptyString)).

(** The [message] of an error of the repository. [show] is the conversion
    of a number to text in template literals ([Number::toString]). *)
Definition message_text (show : number -> string) (m : ErrorMessage)
  : string :=
  match m with
  | InvalidSenderAccount o =>
      cross_mark ++ " Invalid sender account. This account is owned by program "
      ++ o ++ " and cannot be used to pay transaction fees. Make sure you're using a system account, not a token account or PDA."
  | InsufficientBalance h n a f =>
      cross_mark ++ " Insufficient balance. You have " ++ show h
      ++ " SOL, but need " ++ show n ++ " SOL (" ++ show a ++ " SOL + "
      ++ show f ++ " SOL fee)"
  | TransactionFailed msg logs =>
      "Transaction failed: " ++ msg ++ newline ++ "Logs: " ++ logs
  | InvalidPrivateKeyLength n =>
      "Invalid private key length: expected 64 bytes, got "
      ++ NilZero.string_of_uint (Nat.to_uint n)
  | InvalidPrivateKeyFormatInner => "Invalid private key format"
  | InvalidPrivateKeyFormat =>
      "Invalid private key format. Please provide a base58 encoded private key or array of 64 numbers."
  | AccountCannotSign o =>
      cross_mark ++ " This account is owned by program " ++ o
      ++ " and cannot sign transactions. System accounts should be owned by "
      ++ SYSTEM_PROGRAM_ID
      ++ ". You may be using a token account or PDA instead of a wallet account."
  end%string.

(** The three blocks of lines [showErrorHelp] can print. *)
Inductive Help :=
| HelpFeePayer
| HelpInsufficientBalance
| HelpUnknown.

Definition FEE_PAYER_PHRASE : string :=
  "This account may not be used to pay transaction fees".

Definition showErrorHelp (errorMessage : string) : Help :=
  if includes errorMessage FEE_PAYER_PHRASE then HelpFeePayer
  else if includes errorMessage "Insufficient balance"
       then HelpInsufficientBalance
       else HelpUnknown.

(** ** Vocabulary for texts *)

(** The characters [Number::toString] can print: digits, the point, the
    signs, the exponent mark and the letters of NaN and Infinity. *)
Definition number_chars : list ascii :=
  list_ascii_of_string "0123456789.-+eNaInfity".

Definition prints_numbers (show : number -> string) : Prop :=
  forall x,
    Forall (fun c => In c number_chars) (list_ascii_of_string (show x)).

(** [text] and [needle] agree as far as both go. *)
Fixpoint agrees (needle text : list ascii) : bool :=
  match needle, text with
  | a :: n, b :: t => Ascii.eqb a b && agrees n t
  | _, _ => true
  end.

(** No place of [text] can be the start of [needle], whatever follows
    [text]. *)
Fixpoint clear_of (needle text : list ascii) : bool :=
  match text with
  | [] => true
  | _ :: r => negb (agrees needle text) && clear_of needle r
  end.

(** No part of [needle] that begins after a prefix free of [s] can begin
    [next]. *)
Definition blocked (s : ascii) (needle next : list ascii) : bool :=
  forallb (fun k => existsb (Ascii.eqb s) (firstn k needle)
                    || negb (agrees (skipn k needle) next))
          (seq 0 (S (length needle))).

(* ------------------------------------------------------------------------- *)
(** * The [balance] and [send] commands (index.ts, lines 96 to 114 and 223
      to 289)

    A command ends by printing one of a few lines; the report it returns
    here stands for that last line. [parseFloat] is the builtin. *)

(** [!option]: an option that is absent or the empty text. *)
Definition missing (o : option string) : bool :=
  match o with
  | None | Some EmptyString => true
  | Some _ => false
  end.

Definition text_of (o : option string) : string :=
  match o with
  | Some s => s
  | None => EmptyString
  end.

(** [x <= y]; false as soon as one side is NaN. *)
Definition le (x y : number) : bool := SFleb x y.

Inductive BalanceReport :=
(** "No wallet imported. Please import a wallet first." *)
| NoWallet
(** "Balance: ${formatBalance(solBalance)} SOL" *)
| BalanceShown (solBalance : number)
(** "Error fetching balance:" and the message *)
| BalanceFetchFailed (e : JsError)
(** "Error:" and the message *)
| BalanceFailed (e : JsError)
(** "Please provide a private key using -k or --private-key" *)
| BalanceMissingKey.

(** [showBalance], given [state.wallet] *)
Definition showBalance (connection : Connection)
    (wallet : option WalletManager.t) : Js BalanceReport :=
  match wallet with
  | None => ret NoWallet
  | Some w =>
      try_catch
        (publicKey <- PublicKey_new (WalletManager.getPublicKey w) ;;
         balance <- getBalance connection publicKey ;;
         let solBalance := div balance LAMPORTS_PER_SOL in
         ret (BalanceShown solBalance))
        (fun error => ret (BalanceFetchFailed error))
  end.

(** The action of the [balance] command. *)
Definition balance_command (rt : Runtime) (connection : Connection)
    (privateKey : option string) : Js BalanceReport :=
  if negb (missing privateKey)
  then
    try_catch
      (wallet <- WalletManager.constructor rt (text_of privateKey) ;;
       showBalance connection (Some wallet))
      (fun error => ret (BalanceFailed error))
  else ret BalanceMissingKey.

Inductive SendReport :=
(** "Please provide all required options: -k, -t, -a" *)
| SendMissingOptions
(** "Invalid recipient public key" *)
| SendInvalidRecipient
(** "Amount must be greater than 0" *)
| SendAmountNotPositive
(** "Transaction sent successfully!" and the signature *)
| Sent (signature : string)
(** "Error:" and the message *)
| SendFailed (e : JsError).

(** The action of the [send] command. *)
Definition send_command (rt : Runtime) (parseFloat : string -> number)
    (connection : Connection) (privateKey to amount : option string)
  : Js SendReport :=
  if missing privateKey || missing to || missing amount
  then ret SendMissingOptions
  else
    try_catch
      (wallet <- WalletManager.constructor rt (text_of privateKey) ;;
       valid <- validatePublicKey (text_of to) ;;
       if negb valid then ret SendInvalidRecipient
       else
         let amount := parseFloat (text_of amount) in
         if le amount zero then ret SendAmountNotPositive
         else
           recipient <- PublicKey_new (text_of to) ;;
           signature <- TransferManager.sendSOL connection
                          (WalletManager.getKeypair wallet) recipient amount ;;
           ret (Sent signature))
      (fun error => ret (SendFailed error)).

(* ------------------------------------------------------------------------- *)
(** * [truncateAddress] (index.ts, lines 374 to 377)

    Texts are taken to be ASCII, as addresses are, so that the length in
    characters is the length JavaScript counts. *)

(** [s.slice(start)] for an integer [start] *)
Definition slice_from (start : Z) (s : string) : string :=
  let len := Z.of_nat (String.length s) in
  let from := if start <? 0 then Z.max (len + start) 0 else Z.min start len in
  substring (Z.to_nat from) (Z.to_nat (len - from)) s.

(** [s.slice(0, end)] for a natural number [end] *)
Definition slice_to (n : nat) (s : string) : string := substring 0 n s.

Definition truncateAddress (address : string) (chars : nat) : string :=
  if (String.length address <=? chars * 2)%nat then address
  else (slice_to chars address ++ "..."
        ++ slice_from (- Z.of_nat chars) address)%string.

(* ------------------------------------------------------------------------- *)
(** * [sendSOL] of the menu (index.ts, lines 116 to 173) *)

(** [error instanceof Error ? error.message : "Unknown error"]: every
    error of the model is an [Error]. [range_text] is the engine's message
    for the [RangeError] of [BigInt]. *)
Definition error_message (show : number -> string) (range_text : string)
    (e : JsError) : string :=
  match e with
  | Error m => message_text show m
  | SendTransactionError message => message
  | RangeError => range_text
  | SdkError message => message
  end.

Inductive MenuReport :=
(** "No wallet imported. Please import a wallet first." *)
| MenuNoWallet
(** "Transaction cancelled" *)
| MenuCancelled
(** "Transaction sent successfully!" and the signature *)
| MenuSent (signature : string)
(** "Error sending transaction:", the message, and the help shown *)
| MenuFailed (errorMessage : string) (help : Help).

(** [sendSOL] of index.ts, given [state.wallet] and the answers to its
    three prompts. *)
Definition menu_sendSOL (show : number -> string) (range_text : string)
    (connection : Connection) (wallet : option WalletManager.t)
    (recipient : string) (amount : number) (confirm : bool)
  : Js MenuReport :=
  match wallet with
  | None => ret MenuNoWallet
  | Some w =>
      if negb confirm then ret MenuCancelled
      else
        try_catch
          (recipientKey <- PublicKey_new recipient ;;
           signature <- TransferManager.sendSOL connection
                          (WalletManager.getKeypair w) recipientKey amount ;;
           ret (MenuSent signature))
          (fun error =>
             let errorMessage := error_message show range_text error in
             ret (MenuFailed errorMessage (showErrorHelp errorMessage)))
  end.

(* ========================================================================= *)
(** * Properties *)

(* ------------------------------------------------------------------------- *)
(** ** Base-58 is a bijection between byte strings and their encodings *)

Section LeadingFacts.
Context {A : Type} (p : A -> bool).

Lemma leading_prefix (l : list A) :
  Forall (fun x => p x = true) (firstn (leading p l) l).
Proof.
  induction l as [|x r IH]; simpl; [constructor|].
  destruct (p x) eqn:E; simpl; [constructor; assumption | constructor].
Qed.

Lemma leading_rest (l : list A) :
  match skipn (leading p l) l with
  | [] => True
  | x :: _ => p x = false
  end.
Proof.
  induction l as [|x r IH]; simpl; [exact I|].
  destruct (p x) eqn:E; simpl; assumption.
Qed.

Lemma leading_app_stop (l1 l2 : list A) :
  Forall (fun x => p x = true) l1 ->
  match l2 with [] => True | x :: _ => p x = false end ->
  leading p (l1 ++ l2) = length l1.
Proof.
  intros H1 H2. induction H1 as [|x r Hx _ IH]; simpl.
  - destruct l2 as [|y l2]; simpl; [reflexivity | now rewrite H2].
  - now rewrite Hx, IH.
Qed.
End LeadingFacts.

Module Base58Facts.
Import Base58.

Lemma of_digits_snoc b ds d : of_digits b (ds ++ [d]) = of_digits b ds * b + d.
Proof. unfold of_digits. now rewrite fold_left_app. Qed.

Lemma of_digits_nonneg b ds :
  0 <= b -> Forall (fun d => 0 <= d < b) ds -> 0 <= of_digits b ds.
Proof.
  intros Hb. induction ds as [|d ds IH] using rev_ind; intros H.
  - unfold of_digits; simpl; lia.
  - rewrite of_digits_snoc. apply Forall_app in H as [H1 H2].
    inversion H2; subst. specialize (IH H1). nia.
Qed.

Lemma of_digits_pos b ds :
  0 < b -> canonical b ds -> ds <> [] -> 0 < of_digits b ds.
Proof.
  intros Hb. induction ds as [|d ds IH] using rev_ind; intros [H Hn] Hne.
  - congruence.
  - rewrite of_digits_snoc. apply Forall_app in H as [H1 H2].
    inversion H2; subst.
    destruct ds as [|d0 ds].
    + simpl in Hn. unfold of_digits; simpl. lia.
    + assert (0 < of_digits b (d0 :: ds)).
      { apply IH; [split; [assumption | exact Hn] | discriminate]. }
      nia.
Qed.

Lemma of_digits_zeros b k ds :
  of_digits b (repeat 0 k ++ ds) = of_digits b ds.
Proof.
  unfold of_digits. rewrite fold_left_app.
  replace (fold_left (fun a d => a * b + d) (repeat 0 k) 0) with 0; [reflexivity|].
  induction k; simpl; [reflexivity | assumption].
Qed.

Lemma to_digits_from_zero b fuel acc : to_digits_from b fuel 0 acc = acc.
Proof. destruct fuel; reflexivity. Qed.

(** Digits of a canonical string's value are the string itself. *)
Lemma to_digits_from_of_digits b ds :
  2 <= b -> canonical b ds ->
  forall fuel acc,
    of_digits b ds < 2 ^ Z.of_nat fuel ->
    to_digits_from b fuel (of_digits b ds) acc = ds ++ acc.
Proof.
  intros Hb. induction ds as [|d ds IH] using rev_ind; intros Hc fuel acc Hf.
  - unfold of_digits; simpl. apply to_digits_from_zero.
  - destruct Hc as [H Hn]. apply Forall_app in H as [H1 H2].
    inversion H2 as [|? ? Hd _]; subst.
    assert (Hc' : canonical b ds).
    { split; [assumption|]. destruct ds; [exact I | exact Hn]. }
    assert (Hv : 0 <= of_digits b ds) by (apply of_digits_nonneg; [lia | assumption]).
    assert (Hpos : 0 < of_digits b (ds ++ [d])).
    { apply of_digits_pos; [lia | split; [apply Forall_app; split; assumption | exact Hn] |].
      destruct ds; discriminate. }
    rewrite of_digits_snoc in *.
    destruct fuel as [|fuel]; [simpl in Hf; lia|].
    simpl. destruct (Z.leb_spec (of_digits b ds * b + d) 0); [lia|].
    assert (Hq : (of_digits b ds * b + d) / b = of_digits b ds).
    { rewrite Z.div_add_l by lia. rewrite Z.div_small by lia. lia. }
    assert (Hr : (of_digits b ds * b + d) mod b = d).
    { rewrite Z.add_comm, Z.mod_add by lia. apply Z.mod_small; lia. }
    rewrite Hq, Hr. rewrite IH; [now rewrite <- app_assoc | assumption |].
    rewrite Nat2Z.inj_succ, Z.pow_succ_r in Hf by lia. nia.
Qed.

(** The digits computed for [n] are canonical and denote [n]. *)
Lemma to_digits_from_spec b :
  2 <= b ->
  forall fuel n acc,
    0 <= n < 2 ^ Z.of_nat fuel ->
    exists ds, to_digits_from b fuel n acc = ds ++ acc /\
               canonical b ds /\ of_digits b ds = n.
Proof.
  intros Hb. induction fuel as [|fuel IH]; intros n acc Hn.
  - simpl in Hn. exists []. simpl. repeat split; [constructor | unfold of_digits; simpl; lia].
  - simpl. destruct (Z.leb_spec n 0).
    + exists []. simpl. repeat split; [constructor | unfold of_digits; simpl; lia].
    + destruct (IH (n / b) (n mod b :: acc)) as (ds & E & [Hr Hh] & Hv).
      { rewrite Nat2Z.inj_succ, Z.pow_succ_r in Hn by lia. split.
        - apply Z.div_pos; lia.
        - apply Z.div_lt_upper_bound; nia. }
      exists (ds ++ [n mod b]). split; [now rewrite <- app_assoc|]. split.
      * split.
        -- apply Forall_app; split; [assumption|]. constructor; [|constructor].
           apply Z.mod_pos_bound; lia.
        -- destruct ds as [|d0 ds]; simpl; [|exact Hh].
           unfold of_digits in Hv; simpl in Hv.
           rewrite Z.mod_eq by lia. rewrite <- Hv. lia.
      * rewrite of_digits_snoc, Hv. rewrite Z.mul_comm. symmetry. apply Z.div_mod. lia.
Qed.

Lemma log2_fuel n : 0 <= n -> n < 2 ^ Z.of_nat (S (Z.to_nat (Z.log2 n))).
Proof.
  intros Hn. rewrite Nat2Z.inj_succ, Z2Nat.id by apply Z.log2_nonneg.
  destruct (Z.eq_dec n 0) as [->|]; [simpl; lia|].
  apply Z.log2_spec. lia.
Qed.

Lemma to_digits_spec b n :
  2 <= b -> 0 <= n -> canonical b (to_digits b n) /\ of_digits b (to_digits b n) = n.
Proof.
  intros Hb Hn. unfold to_digits.
  destruct (to_digits_from_spec b Hb (S (Z.to_nat (Z.log2 n))) n [])
    as (ds & E & Hc & Hv); [split; [assumption | now apply log2_fuel]|].
  rewrite E, app_nil_r. split; assumption.
Qed.

Lemma to_digits_of_digits b ds :
  2 <= b -> canonical b ds -> to_digits b (of_digits b ds) = ds.
Proof.
  intros Hb Hc. unfold to_digits.
  rewrite to_digits_from_of_digits; [apply app_nil_r | assumption | assumption |].
  apply log2_fuel. apply of_digits_nonneg; [lia | apply Hc].
Qed.


Lemma BASE_MAP_char_at d : 0 <= d < BASE -> BASE_MAP (char_at d) = Some d.
Proof.
  intros Hd.
  assert (Hall : forallb (fun i => match BASE_MAP (char_at (Z.of_nat i)) with
                                   | Some j => j =? Z.of_nat i
                                   | None => false
                                   end) (seq 0 58) = true) by (vm_compute; reflexivity).
  rewrite forallb_forall in Hall.
  specialize (Hall (Z.to_nat d)). rewrite Z2Nat.id in Hall by lia.
  assert (Hin : In (Z.to_nat d) (seq 0 58)) by (apply in_seq; unfold BASE in Hd; lia).
  specialize (Hall Hin). destruct (BASE_MAP (char_at d)); [|discriminate].
  apply Z.eqb_eq in Hall. now subst.
Qed.

Lemma char_at_not_leader d :
  0 <= d < BASE -> d <> 0 -> Ascii.eqb LEADER (char_at d) = false.
Proof.
  intros Hd Hnz.
  assert (Hall : forallb (fun i => negb (Ascii.eqb LEADER (char_at (Z.of_nat (S i)))))
                   (seq 0 57) = true) by (vm_compute; reflexivity).
  rewrite forallb_forall in Hall.
  specialize (Hall (Z.to_nat (d - 1))).
  replace (Z.of_nat (S (Z.to_nat (d - 1)))) with d in Hall by lia.
  apply negb_true_iff, Hall, in_seq. unfold BASE in Hd. lia.
Qed.

Lemma map_opt_app {A B} (f : A -> option B) l1 l2 r1 r2 :
  map_opt f l1 = Some r1 -> map_opt f l2 = Some r2 ->
  map_opt f (l1 ++ l2) = Some (r1 ++ r2).
Proof.
  revert r1. induction l1 as [|x l1 IH]; simpl; intros r1 H1 H2.
  - inversion H1; subst. exact H2.
  - destruct (f x); [|discriminate]. destruct (map_opt f l1) eqn:E; [|discriminate].
    inversion H1; subst. now rewrite (IH l eq_refl H2).
Qed.

Lemma map_opt_leaders k : map_opt BASE_MAP (repeat LEADER k) = Some (repeat 0 k).
Proof. induction k; simpl; [reflexivity|]. simpl in IHk. now rewrite IHk. Qed.

Lemma map_opt_chars ds :
  Forall (fun d => 0 <= d < BASE) ds -> map_opt BASE_MAP (map char_at ds) = Some ds.
Proof.
  induction 1 as [|d ds Hd _ IH]; simpl; [reflexivity|].
  now rewrite (BASE_MAP_char_at d Hd), IH.
Qed.

Lemma Forall_repeat {A} (P : A -> Prop) x k : P x -> Forall P (repeat x k).
Proof. intros; induction k; simpl; constructor; assumption. Qed.

(** A byte string splits into its leading zeros and a canonical rest. *)
Lemma bytes_split bs :
  Forall (fun d => 0 <= d < 256) bs ->
  exists rest, bs = repeat 0 (leading (Z.eqb 0) bs) ++ rest /\ canonical 256 rest.
Proof.
  induction 1 as [|b bs Hb Hbs (rest & E & Hc)]; cbn [leading].
  - exists []. split; [reflexivity | split; [constructor | exact I]].
  - destruct (Z.eqb_spec 0 b) as [<-|Hne].
    + exists rest. cbn [repeat app]. split; [now rewrite <- E | assumption].
    + exists (b :: bs). split; [reflexivity|].
      split; [constructor; assumption | congruence].
Qed.

Lemma decode_encode bs :
  Forall (fun d => 0 <= d < 256) bs -> decode (encode bs) = Some bs.
Proof.
  intros Hbs. destruct (bytes_split bs Hbs) as (rest & E & Hc).
  set (k := leading (Z.eqb 0) bs) in *.
  unfold encode, decode. fold k.
  rewrite list_ascii_of_string_of_list_ascii.
  assert (Hn : of_digits 256 bs = of_digits 256 rest)
    by (rewrite E at 1; apply of_digits_zeros).
  rewrite Hn.
  destruct (to_digits_spec BASE (of_digits 256 rest)) as [[Hr Hh] Hv];
    [unfold BASE; lia | apply of_digits_nonneg; [lia | apply Hc] |].
  set (ds := to_digits BASE (of_digits 256 rest)) in *.
  rewrite (map_opt_app _ _ _ _ _ (map_opt_leaders k) (map_opt_chars ds Hr)).
  rewrite of_digits_zeros, Hv.
  rewrite to_digits_of_digits by (lia || assumption).
  replace (leading (Ascii.eqb LEADER) (repeat LEADER k ++ map char_at ds)) with k.
  - now rewrite <- E.
  - symmetry. rewrite leading_app_stop.
    + apply repeat_length.
    + apply Forall_repeat. reflexivity.
    + destruct ds as [|d ds']; simpl; [exact I|].
      apply char_at_not_leader; [now inversion Hr | exact Hh].
Qed.

Lemma encode_inj a b :
  Forall (fun d => 0 <= d < 256) a -> Forall (fun d => 0 <= d < 256) b ->
  encode a = encode b -> a = b.
Proof.
  intros Ha Hb E. apply decode_encode in Ha, Hb. rewrite E in Ha. congruence.
Qed.

(** A string that contains a character outside the alphabet is refused. *)
Lemma decode_bad_char s1 c s2 :
  BASE_MAP c = None -> decode (s1 ++ String c s2) = None.
Proof.
  intros Hc. unfold decode.
  assert (H : map_opt BASE_MAP (list_ascii_of_string (s1 ++ String c s2)) = None).
  { induction s1 as [|x s1 IH]; simpl.
    - now rewrite Hc.
    - rewrite IH. now destruct (BASE_MAP x). }
  now rewrite H.
Qed.

End Base58Facts.

(* ------------------------------------------------------------------------- *)
(** ** Running the effects *)

Ltac run_js :=
  cbv beta iota zeta delta
    [TransferManager.sendSOL TransferManager.estimateTransactionFee
     TransferManager.checkAddressExists
     WalletManager.validateForTransactions
     bind ret throw thrown try_catch console_log request
     getAccountInfo getBalance getLatestBlockhash getFeeForMessage
     sendAndConfirmTransaction getLogs
     SystemProgram_transfer compileMessage Transaction_add
     set_recentBlockhash set_feePayer];
  cbn [calls console feePayer recentBlockhash instructions fst snd].

(** Rewrites the moment of a call to [now st + k]. *)
Ltac tick :=
  rewrite ?length_app; cbn [length];
  rewrite <- ?Nat.add_assoc; cbn [Nat.add];
  rewrite ?Nat.add_0_r.

Ltac answer H := tick; rewrite H; run_js.

(** Splits on the next answer the run waits for. *)
Ltac split_answer :=
  tick;
  match goal with
  | |- context [rpc_getAccountInfo ?c ?t ?k] =>
      destruct (rpc_getAccountInfo c t k) as [[?|]|[?|?]] eqn:?
  | |- context [if negb (String.eqb ?a ?b) then _ else _] =>
      destruct (String.eqb a b) eqn:?; cbn [negb]
  | |- context [rpc_getBalance ?c ?t ?k] =>
      destruct (rpc_getBalance c t k) as [?|[?|?]] eqn:?
  | |- context [match to_bigint ?x with _ => _ end] =>
      destruct (to_bigint x) eqn:?
  | |- context [rpc_getLatestBlockhash ?c ?t] =>
      destruct (rpc_getLatestBlockhash c t) as [?|[?|?]] eqn:?
  | |- context [rpc_getFeeForMessage ?c ?t ?m] =>
      destruct (rpc_getFeeForMessage c t m) as [?|[?|?]] eqn:?
  | |- context [if lt ?a ?b then _ else _] =>
      destruct (lt a b) eqn:?
  | |- context [rpc_sendAndConfirm ?c ?t ?x ?s] =>
      destruct (rpc_sendAndConfirm c t x s) as [?|[?|?]] eqn:?
  | |- context [rpc_getLogs ?c ?t] =>
      destruct (rpc_getLogs c t) as [?|[?|?]] eqn:?
  end;
  run_js.

Lemma system_program_base58 : toBase58 SYSTEM_PROGRAM = SYSTEM_PROGRAM_ID.
Proof. vm_compute. reflexivity. Qed.

Lemma is_bytes_system_program : is_bytes SYSTEM_PROGRAM.
Proof. apply Base58Facts.Forall_repeat. lia. Qed.

(** Only the system program has the system program's address. *)
Lemma not_system_program (k : PublicKey) :
  is_bytes k -> k <> SYSTEM_PROGRAM ->
  String.eqb (toBase58 k) SYSTEM_PROGRAM_ID = false.
Proof.
  intros Hk Hne. apply String.eqb_neq. intros E. apply Hne.
  rewrite <- system_program_base58 in E.
  apply Base58Facts.encode_inj;
    [assumption | apply is_bytes_system_program | exact E].
Qed.





Section Transfer.
Import TransferManager.
Variable connection : Connection.
Variables (kp : Keypair) (to : PublicKey) (amountSOL : number) (st : State).





(** C4. A sender whose account exists and is owned by another program than
    the system program makes [sendSOL] throw the invalid-sender error right
    after the account query: no balance query, no fee estimate, no
    signature, no submission. [validateForTransactions] refuses such an
    account in the same way. *)
Theorem sendSOL_refuses_non_system_sender (info : AccountInfo) :
  rpc_getAccountInfo connection (now st) (publicKey kp)
    = Resolved (Some info) ->
  is_bytes (owner info) ->
  owner info <> SYSTEM_PROGRAM ->
  (exists st',
     sendSOL connection kp to amountSOL st =
       (Throw (Error (InvalidSenderAccount (toBase58 (owner info)))), st') /\
     calls st' = calls st ++ [GetAccountInfo (publicKey kp)]) /\
  (exists st',
     WalletManager.validateForTransactions
       {| WalletManager.keypair := kp |} connection st =
       (Throw (Error (AccountCannotSign (toBase58 (owner info)))), st') /\
     calls st' = calls st ++ [GetAccountInfo (publicKey kp)]).
Proof.
  intros Hq Hb Hne. unfold now in Hq.
  split; eexists; run_js; cbn [WalletManager.keypair]; answer Hq;
    rewrite (not_system_program _ Hb Hne); cbn [negb]; split; reflexivity.
Qed.


(** C6 (amended). A transfer that [sendSOL] completes is processed by
    these calls, in this order: the account query (classification), the
    balance query, the blockhash and fee queries of the estimate, a second
    blockhash query, and the signature, submission and confirmation in one
    SDK call. The balance is queried once, before the fee estimate; the
    comparison made after the estimate uses that answer. *)
Theorem sendSOL_call_order (signature : string) (st' : State) :
  sendSOL connection kp to amountSOL st = (Return signature, st') ->
  exists b z h1 h2 value,
    calls st' = calls st ++ calls_until_submission kp to z h1 h2 /\
    rpc_getBalance connection (now st + 1) (publicKey kp) = Resolved b /\
    rpc_getFeeForMessage connection (now st + 3)
      (transfer_message (publicKey kp) to z h1) = Resolved value /\
    lt (of_Z b) (total_required amountSOL value) = false.
Proof.
  intros Hrun.
  enough (K : forall Q : Prop,
             (forall b z h1 h2 value,
                calls st' = calls st ++ calls_until_submission kp to z h1 h2 ->
                rpc_getBalance connection (now st + 1) (publicKey kp)
                  = Resolved b ->
                rpc_getFeeForMessage connection (now st + 3)
                  (transfer_message (publicKey kp) to z h1)
                  = Resolved value ->
                lt (of_Z b) (total_required amountSOL value) = false -> Q) ->
             Q).
  { apply K. intros b z h1 h2 value H1 H2 H3 H4.
    exists b, z, h1, h2, value. repeat split; assumption. }
  intros Q HQ. revert Hrun. run_js.
  repeat (split_answer; try (intros H; discriminate H)).
  all: intros H; inversion H; subst; clear H.
  all: match goal with
       | Hb : rpc_getBalance _ _ _ = Resolved ?b,
         Hf : rpc_getFeeForMessage _ _ _ = Resolved ?v,
         Hl : lt _ _ = false |- _ =>
           eapply HQ; [| exact Hb | exact Hf | exact Hl]
       end.
  all: cbn [calls]; unfold calls_until_submission, calls_until_check;
    rewrite <- !app_assoc; reflexivity.
Qed.

(** C7. For an account that is absent on chain (the account query answers
    [null]) [validateForTransactions] returns without an error, printing
    that the account will be created on its first transaction, and
    [sendSOL] does not throw its invalid-sender error. *)
Theorem absent_account_is_accepted :
  rpc_getAccountInfo connection (now st) (publicKey kp) = Resolved None ->
  WalletManager.validateForTransactions
    {| WalletManager.keypair := kp |} connection st =
    (Return tt,
     {| calls := calls st ++ [GetAccountInfo (publicKey kp)];
        console := console st ++ [LogNotOnChainYet] |}) /\
  forall o,
    fst (sendSOL connection kp to amountSOL st)
      <> Throw (Error (InvalidSenderAccount o)).
Proof.
  intros Hq. unfold now in Hq. split.
  - run_js. cbn [WalletManager.keypair]. answer Hq. reflexivity.
  - intros o. run_js. answer Hq.
    repeat split_answer; cbn [fst thrown]; discriminate.
Qed.


(** C10. [checkAddressExists] always returns a boolean: [true] when the
    account query answers an account, [false] when it answers [null] and
    [false] as well when it throws. *)
Theorem checkAddressExists_never_throws (k : PublicKey) :
  fst (checkAddressExists connection k st) =
  Return (match rpc_getAccountInfo connection (now st) k with
          | Resolved (Some _) => true
          | Resolved None => false
          | Rejected _ => false
          end).
Proof.
  unfold now. run_js.
  destruct (rpc_getAccountInfo connection (length (calls st)) k)
    as [[info|]|e]; reflexivity.
Qed.

End Transfer.

(* ------------------------------------------------------------------------- *)
(** ** The transfer pipeline on concrete nodes *)

Ltac by_computation := vm_compute; reflexivity.



Lemma is_bytes_rfc8032_public : is_bytes rfc8032_public.
Proof. unfold is_bytes, rfc8032_public. repeat (constructor; [lia|]). constructor. Defined.




(** With such an amount the transfer cannot be built, whatever the
    balance: [SystemProgram.transfer] throws while the fee is estimated. *)
Example sendSOL_fractional_lamports :
  fst (TransferManager.sendSOL (steady_node 1000000000 (Some 5000))
         example_keypair example_recipient (ratio 67 1000) initial)
    = Throw RangeError.
Proof. by_computation. Qed.



Lemma sendSOL_refuses_non_system_sender_witness :
  let connection := program_owned_node rfc8032_public in
  let info := {| owner := rfc8032_public; lamports := 0 |} in
  (exists st',
     TransferManager.sendSOL connection example_keypair example_recipient
       (ratio 1 2) initial =
       (Throw (Error (InvalidSenderAccount (toBase58 (owner info)))), st') /\
     calls st' = calls initial ++ [GetAccountInfo (publicKey example_keypair)]) /\
  (exists st',
     WalletManager.validateForTransactions
       {| WalletManager.keypair := example_keypair |} connection initial =
       (Throw (Error (AccountCannotSign (toBase58 (owner info)))), st') /\
     calls st' = calls initial ++ [GetAccountInfo (publicKey example_keypair)]).
Proof.
  intros connection info.
  apply (sendSOL_refuses_non_system_sender connection example_keypair
           example_recipient (ratio 1 2) initial info).
  - reflexivity.
  - exact is_bytes_rfc8032_public.
  - intros E. vm_compute in E. discriminate E.
Defined.


Lemma sendSOL_call_order_witness :
  let run := TransferManager.sendSOL (steady_node 1000000000 (Some 5000))
               example_keypair example_recipient (ratio 1 2) initial in
  exists b z h1 h2 value,
    calls (snd run) = calls initial ++
      calls_until_submission example_keypair example_recipient z h1 h2 /\
    rpc_getBalance (steady_node 1000000000 (Some 5000)) (now initial + 1)
      (publicKey example_keypair) = Resolved b /\
    rpc_getFeeForMessage (steady_node 1000000000 (Some 5000)) (now initial + 3)
      (transfer_message (publicKey example_keypair) example_recipient z h1)
      = Resolved value /\
    lt (of_Z b) (total_required (ratio 1 2) value) = false.
Proof.
  intros run.
  apply (sendSOL_call_order (steady_node 1000000000 (Some 5000))
           example_keypair example_recipient (ratio 1 2) initial
           "signature" (snd run)).
  by_computation.
Defined.

(** C6, as stated, fails: on a node whose answer to the balance query drops
    to 0 after the second call, a transfer of 0.5 SOL is submitted; the
    call before the submission is a blockhash query, not a balance query,
    and the only balance query is the second call of the run. *)
Lemma sendSOL_balance_not_requeried :
  let node := draining_node 1000000000 (Some 5000) in
  let run := TransferManager.sendSOL node example_keypair example_recipient
               (ratio 1 2) initial in
  fst run = Return "signature"%string /\
  rpc_getBalance node 4 (publicKey example_keypair) = Resolved 0 /\
  calls (snd run) =
    calls_until_submission example_keypair example_recipient 500000000
      "blockhash" "blockhash" /\
  ~ balance_queried_right_before_signing (calls (snd run)).
Proof.
  intros node run.
  assert (E : calls (snd run) =
              calls_until_submission example_keypair example_recipient
                500000000 "blockhash" "blockhash") by by_computation.
  split; [by_computation|]. split; [reflexivity|]. split; [exact E|].
  intros H. rewrite E in H.
  destruct (H (calls_until_check example_keypair example_recipient 500000000
                 "blockhash" ++ [GetLatestBlockhash])
              _ _ _ _ [] ltac:(by_computation)) as (earlier & k & Hlast).
  apply (f_equal (fun l => last l GetLogs)) in Hlast.
  rewrite !last_last in Hlast. discriminate Hlast.
Qed.

Lemma absent_account_is_accepted_witness :
  let connection := steady_node 0 None in
  WalletManager.validateForTransactions
    {| WalletManager.keypair := example_keypair |} connection initial =
    (Return tt,
     {| calls := calls initial ++ [GetAccountInfo (publicKey example_keypair)];
        console := console initial ++ [LogNotOnChainYet] |}) /\
  forall o,
    fst (TransferManager.sendSOL connection example_keypair
           example_recipient (ratio 1 2) initial)
      <> Throw (Error (InvalidSenderAccount o)).
Proof.
  intros connection.
  apply (absent_account_is_accepted connection example_keypair
           example_recipient (ratio 1 2) initial).
  reflexivity.
Defined.


(* ------------------------------------------------------------------------- *)
(** ** The wallet constructor *)

Ltac run_wallet :=
  cbv beta iota zeta delta
    [WalletManager.constructor WalletManager.isValidPrivateKey
     WalletManager.createNew importWallet
     bind ret throw try_catch console_log bs58_decode];
  cbn [calls console fst snd].

Lemma Uint8Array_from_coerce (rt : Runtime) (items : list JSValue)
    (st : State) :
  Uint8Array_from rt items st =
  match coerce rt items with
  | Some b => (Return b, st)
  | None => (Throw (SdkError "TypeError"), st)
  end.
Proof.
  induction items as [|v r IH]; cbn [Uint8Array_from coerce]; [reflexivity|].
  destruct (ToNumber rt v) as [n|]; [|reflexivity].
  unfold bind. rewrite IH. destruct (coerce rt r); reflexivity.
Qed.

Lemma Keypair_fromSecretKey_checked (rt : Runtime) (sk : bytes) (st : State) :
  Keypair_fromSecretKey rt sk st =
  match checked_keypair rt sk with
  | Some kp => (Return kp, st)
  | None =>
      (Throw (SdkError (if Nat.eqb (length sk) 64
                        then "provided secretKey is invalid"
                        else "bad secret key size")), st)
  end.
Proof.
  unfold Keypair_fromSecretKey, checked_keypair.
  destruct (Nat.eqb (length sk) 64); cbn [negb]; [|reflexivity].
  destruct (list_eq_dec Z.eq_dec (skipn 32 sk)
              (ed25519_getPublicKey rt (firstn 32 sk))); reflexivity.
Qed.

Lemma checked_keypair_length (rt : Runtime) (sk : bytes) (kp : Keypair) :
  checked_keypair rt sk = Some kp -> length sk = 64%nat.
Proof.
  unfold checked_keypair. destruct (Nat.eqb_spec (length sk) 64);
    [trivial | discriminate].
Qed.

(** The second attempt of the constructor, case by case. *)
Ltac array_cases rt raw :=
  destruct (JSON_parse rt raw) as [[| | | |items|]|]; try reflexivity;
  destruct (Nat.eqb (length items) 64); cbn [negb]; try reflexivity;
  rewrite Uint8Array_from_coerce;
  destruct (coerce rt items) as [b'|]; try reflexivity;
  rewrite Keypair_fromSecretKey_checked;
  destruct (checked_keypair rt b'); reflexivity.

(** The constructor follows the decoding policy of the specification: the
    base-58 decoder first, then the array decoder, and the invalid-format
    error when both fail. *)
Lemma constructor_refines_parseIdentity (rt : Runtime) (raw : string)
    (st : State) :
  WalletManager.constructor rt raw st =
  match parseIdentity rt raw with
  | Some kp => (Return {| WalletManager.keypair := kp |}, wallet_loaded st kp)
  | None => (Throw (Error InvalidPrivateKeyFormat), st)
  end.
Proof.
  unfold parseIdentity, first_success, decoder_base58, decoder_array.
  run_wallet.
  destruct (Base58.decode raw) as [b|].
  - destruct (Nat.eqb_spec (length b) 64) as [Hlen|Hlen]; cbn [negb].
    + rewrite Keypair_fromSecretKey_checked.
      destruct (checked_keypair rt b) as [kp|] eqn:Hkp; [reflexivity|].
      array_cases rt raw.
    + assert (Hnone : checked_keypair rt b = None).
      { unfold checked_keypair.
        destruct (Nat.eqb_spec (length b) 64); [contradiction | reflexivity]. }
      rewrite Hnone. array_cases rt raw.
  - array_cases rt raw.
Qed.

Lemma to_uint8_of_byte (b : Z) : 0 <= b < 256 -> to_uint8 (of_Z b) = b.
Proof.
  intros Hb.
  assert (Hall : forallb (fun i => to_uint8 (of_Z (Z.of_nat i)) =? Z.of_nat i)
                   (seq 0 256) = true) by (vm_compute; reflexivity).
  rewrite forallb_forall in Hall.
  specialize (Hall (Z.to_nat b)). rewrite Z2Nat.id in Hall by lia.
  apply Z.eqb_eq, Hall, in_seq. lia.
Qed.

Lemma coerce_bytes (rt : Runtime) (b : bytes) :
  is_bytes b -> coerce rt (map (fun x => JNum (of_Z x)) b) = Some b.
Proof.
  induction 1 as [|x r Hx _ IH]; cbn [map coerce ToNumber]; [reflexivity|].
  now rewrite IH, (to_uint8_of_byte x Hx).
Qed.

Lemma decode_array_text (b : bytes) : Base58.decode (array_text b) = None.
Proof.
  unfold array_text. cbn [String.append].
  apply (Base58Facts.decode_bad_char EmptyString). reflexivity.
Qed.

Lemma checked_keypair_valid (rt : Runtime) (sk : bytes) :
  valid_secret_key rt sk -> checked_keypair rt sk = Some (keypair_of sk).
Proof.
  intros (Hlen & _ & Hpub). unfold checked_keypair.
  rewrite Hlen. cbn [Nat.eqb].
  destruct (list_eq_dec Z.eq_dec (skipn 32 sk)
              (ed25519_getPublicKey rt (firstn 32 sk)));
    [reflexivity | contradiction].
Qed.

Lemma parseIdentity_base58 (rt : Runtime) (sk : bytes) :
  valid_secret_key rt sk ->
  parseIdentity rt (Base58.encode sk) = Some (keypair_of sk).
Proof.
  intros Hv. unfold parseIdentity, first_success, decoder_base58.
  rewrite Base58Facts.decode_encode by apply Hv.
  now rewrite checked_keypair_valid.
Qed.

Lemma parseIdentity_array (rt : Runtime) (sk : bytes) :
  valid_secret_key rt sk ->
  JSON_parse rt (array_text sk)
    = Some (JArr (map (fun x => JNum (of_Z x)) sk)) ->
  parseIdentity rt (array_text sk) = Some (keypair_of sk).
Proof.
  intros Hv Hparse.
  unfold parseIdentity, first_success, decoder_base58, decoder_array.
  rewrite decode_array_text, Hparse, length_map.
  destruct Hv as (Hlen & Hb & Hpub). rewrite Hlen. cbn [Nat.eqb].
  rewrite coerce_bytes by assumption.
  now rewrite checked_keypair_valid by (repeat split; assumption).
Qed.

(** C3 (amended). An input that neither decodes as base-58 to 64 bytes nor
    parses as a JSON array of 64 elements, whatever the elements are, is
    refused: the base-58 decoder and then the array decoder both fail, the
    constructor throws the invalid-format error without building a wallet
    or printing anything, and the error is an ordinary exception:
    [isValidPrivateKey] answers [false] and [importWallet] leaves
    [state.wallet] empty. *)
Theorem constructor_rejects_malformed (rt : Runtime) (connection : Connection)
    (raw : string) (st : State) :
  (forall b, Base58.decode raw = Some b -> length b <> 64%nat) ->
  (forall items, JSON_parse rt raw = Some (JArr items) ->
     length items <> 64%nat) ->
  decoder_base58 rt raw = None /\
  decoder_array rt raw = None /\
  WalletManager.constructor rt raw st
    = (Throw (Error InvalidPrivateKeyFormat), st) /\
  WalletManager.isValidPrivateKey rt raw st = (Return false, st) /\
  fst (importWallet rt connection raw st) = Return None.
Proof.
  intros H58 Hjson.
  assert (Ha : decoder_base58 rt raw = None).
  { unfold decoder_base58. destruct (Base58.decode raw) as [b|] eqn:E;
      [|reflexivity].
    destruct (checked_keypair rt b) as [kp|] eqn:Hkp; [|reflexivity].
    exfalso. exact (H58 b eq_refl (checked_keypair_length rt b kp Hkp)). }
  assert (Hb : decoder_array rt raw = None).
  { unfold decoder_array.
    destruct (JSON_parse rt raw) as [[| | | |items|]|] eqn:E; try reflexivity.
    destruct (Nat.eqb_spec (length items) 64) as [Hlen|]; [|reflexivity].
    exfalso. exact (Hjson items eq_refl Hlen). }
  assert (Hc : WalletManager.constructor rt raw st
               = (Throw (Error InvalidPrivateKeyFormat), st)).
  { rewrite constructor_refines_parseIdentity.
    unfold parseIdentity, first_success. now rewrite Ha, Hb. }
  repeat split; try assumption.
  - unfold WalletManager.isValidPrivateKey, try_catch, bind.
    now rewrite Hc.
  - unfold importWallet, try_catch, bind. now rewrite Hc.
Qed.

Lemma constructor_rejects_malformed_witness :
  (forall b, Base58.decode "2VfYr" = Some b -> length b <> 64%nat) /\
  (forall items, JSON_parse example_runtime "2VfYr" = Some (JArr items) ->
     length items <> 64%nat) /\
  WalletManager.constructor example_runtime "2VfYr" initial
    = (Throw (Error InvalidPrivateKeyFormat), initial).
Proof.
  assert (H1 : forall b, Base58.decode "2VfYr" = Some b -> length b <> 64%nat).
  { intros b H. vm_compute in H. inversion H; subst b. discriminate. }
  assert (H2 : forall items,
             JSON_parse example_runtime "2VfYr" = Some (JArr items) ->
             length items <> 64%nat).
  { intros items H. vm_compute in H. discriminate H. }
  split; [exact H1|]. split; [exact H2|].
  exact (proj1 (proj2 (proj2
           (constructor_rejects_malformed example_runtime (steady_node 0 None)
              "2VfYr" initial H1 H2)))).
Defined.

(** C3, as stated, fails: the text [fractional_key_text] is no base-58 and
    no integer array (its first element is 157.5), and the constructor
    builds the wallet of the RFC 8032 keypair from it. *)
Lemma constructor_accepts_fractional_array :
  malformed_as_claimed example_runtime fractional_key_text /\
  fst (WalletManager.constructor example_runtime fractional_key_text initial)
    = Return {| WalletManager.keypair := example_keypair |}.
Proof.
  split; [split|].
  - intros b H. vm_compute in H. discriminate H.
  - intros items Hparse _ Hint. vm_compute in Hparse.
    inversion Hparse; subst items. clear Hparse.
    inversion Hint as [|v r (n & z & E & Hz) _]; subst.
    inversion E; subst n. vm_compute in Hz. discriminate Hz.
  - vm_compute. reflexivity.
Qed.

(** C8. Parsing the base-58 encoding of a valid 64-byte secret key gives
    the wallet whose secret key is the one encoded and whose public key is
    the one derived from it; [getPrivateKey] gives the encoding back.
    Parsing the integer-array text of the key gives the same wallet, so the
    array text of its secret key is again the text parsed. A wallet made by
    [createNew] is the wallet of the generated keypair, so parsing its
    exported private key gives it again. *)
Theorem key_material_round_trips (rt : Runtime) (sk : bytes) (st : State) :
  valid_secret_key rt sk ->
  let w := {| WalletManager.keypair := keypair_of sk |} in
  WalletManager.constructor rt (Base58.encode sk) st
    = (Return w, wallet_loaded st (keypair_of sk)) /\
  WalletManager.getPrivateKey w = Base58.encode sk /\
  publicKey (WalletManager.getKeypair w)
    = ed25519_getPublicKey rt
        (firstn 32 (secretKey (WalletManager.getKeypair w))) /\
  (JSON_parse rt (array_text sk)
     = Some (JArr (map (fun x => JNum (of_Z x)) sk)) ->
   WalletManager.constructor rt (array_text sk) st
     = (Return w, wallet_loaded st (keypair_of sk))) /\
  array_text (secretKey (WalletManager.getKeypair w)) = array_text sk /\
  (forall seed,
     length seed = 32%nat -> sk = seed ++ ed25519_getPublicKey rt seed ->
     Keypair_generate rt seed = keypair_of sk /\
     WalletManager.createNew rt seed st
       = (Return w, wallet_loaded st (keypair_of sk)) /\
     WalletManager.constructor rt (WalletManager.getPrivateKey w) st
       = (Return w, wallet_loaded st (keypair_of sk))).
Proof.
  intros Hv w.
  assert (H58 : WalletManager.constructor rt (Base58.encode sk) st
                = (Return w, wallet_loaded st (keypair_of sk))).
  { rewrite constructor_refines_parseIdentity.
    now rewrite parseIdentity_base58. }
  split; [exact H58|]. split; [reflexivity|].
  split; [apply Hv|]. split.
  - intros Hparse. rewrite constructor_refines_parseIdentity.
    now rewrite parseIdentity_array.
  - split; [reflexivity|]. intros seed Hseed Hsk.
    assert (Hgen : Keypair_generate rt seed = keypair_of sk).
    { unfold Keypair_generate, keypair_of. rewrite Hsk. f_equal.
      rewrite skipn_app, <- Hseed, skipn_all, Nat.sub_diag. reflexivity. }
    split; [exact Hgen|]. split; [|exact H58].
    unfold WalletManager.createNew. rewrite Hgen. exact H58.
Qed.

Lemma valid_example_key :
  valid_secret_key example_runtime (secretKey example_keypair).
Proof.
  split; [reflexivity|]. split; [|vm_compute; reflexivity].
  unfold is_bytes. cbn. repeat (constructor; [lia|]). constructor.
Defined.

Lemma key_material_round_trips_witness :
  let sk := secretKey example_keypair in
  let w := {| WalletManager.keypair := keypair_of sk |} in
  valid_secret_key example_runtime sk /\
  WalletManager.constructor example_runtime (Base58.encode sk) initial
    = (Return w, wallet_loaded initial (keypair_of sk)) /\
  WalletManager.constructor example_runtime (array_text sk) initial
    = (Return w, wallet_loaded initial (keypair_of sk)).
Proof.
  intros sk w. split; [exact valid_example_key|]. split.
  - exact (proj1 (key_material_round_trips example_runtime sk initial
                    valid_example_key)).
  - apply (proj1 (proj2 (proj2 (proj2
             (key_material_round_trips example_runtime sk initial
                valid_example_key))))).
    vm_compute. reflexivity.
Defined.

(* ------------------------------------------------------------------------- *)
(** ** Base-58 texts and the keys they stand for *)

Module Base58Texts.
Import Base58 Base58Facts.

Lemma index_of_spec (c : ascii) (l : list ascii) (i d : Z) :
  index_of c l i = Some d ->
  i <= d < i + Z.of_nat (length l) /\ nth (Z.to_nat (d - i)) l LEADER = c.
Proof.
  revert i. induction l as [|x r IH]; intros i; cbn [index_of length];
    [discriminate|].
  destruct (Ascii.eqb_spec c x) as [->|Hne].
  - intros [= <-]. split; [lia|]. now rewrite Z.sub_diag.
  - intros H. destruct (IH _ H) as [Hr Hn]. split; [lia|].
    replace (Z.to_nat (d - i)) with (S (Z.to_nat (d - (i + 1)))) by lia.
    exact Hn.
Qed.

Lemma BASE_MAP_spec (c : ascii) (d : Z) :
  BASE_MAP c = Some d -> 0 <= d < BASE /\ char_at d = c.
Proof.
  intros H. destruct (index_of_spec c alphabet 0 d H) as [Hr Hn].
  split; [exact Hr|]. unfold char_at. now rewrite Z.sub_0_r in Hn.
Qed.

Lemma map_opt_digits (cs : list ascii) (ds : list Z) :
  map_opt BASE_MAP cs = Some ds ->
  Forall (fun d => 0 <= d < BASE) ds /\ map char_at ds = cs.
Proof.
  revert ds. induction cs as [|c cs IH]; cbn [map_opt]; intros ds.
  - intros [= <-]. split; [constructor | reflexivity].
  - destruct (BASE_MAP c) as [d|] eqn:Hc; [|discriminate].
    destruct (map_opt BASE_MAP cs) as [r|]; [|discriminate].
    intros [= <-]. destruct (IH r eq_refl) as [Hr Hm].
    destruct (BASE_MAP_spec c d Hc) as [Hd Hch].
    split; [constructor; assumption|]. cbn [map]. now rewrite Hch, Hm.
Qed.

(** The digits of a text split into the zeros of its leading ['1']s and a
    canonical rest. *)
Lemma digits_split (cs : list ascii) (ds : list Z) :
  map_opt BASE_MAP cs = Some ds ->
  exists rest,
    ds = repeat 0 (leading (Ascii.eqb LEADER) cs) ++ rest /\
    canonical BASE rest /\
    cs = repeat LEADER (leading (Ascii.eqb LEADER) cs) ++ map char_at rest.
Proof.
  revert ds. induction cs as [|c cs IH]; intros ds H.
  - cbn in H. injection H as <-. exists []. cbn.
    split; [reflexivity|]. split; [split; [constructor | exact I] | reflexivity].
  - destruct (map_opt_digits _ _ H) as [Hr Hm].
    cbn [map_opt] in H.
    destruct (BASE_MAP c) as [d|] eqn:Hc; [|discriminate].
    destruct (map_opt BASE_MAP cs) as [r|] eqn:Hcs; [|discriminate].
    injection H as <-. cbn [leading].
    destruct (Ascii.eqb_spec LEADER c) as [<-|Hne].
    + destruct (IH r eq_refl) as (rest & E1 & Hcan & E2).
      exists rest. cbn [repeat app]. replace d with 0 in *
        by (vm_compute in Hc; congruence).
      split; [now rewrite <- E1|]. split; [assumption | now rewrite <- E2].
    + exists (d :: r). cbn [repeat app]. split; [reflexivity|].
      split; [split; [assumption|] | now rewrite <- Hm].
      intros ->. apply Hne. destruct (BASE_MAP_spec c 0 Hc) as [_ <-].
      reflexivity.
Qed.

Lemma decode_bytes (s : string) (b : bytes) :
  decode s = Some b -> is_bytes b.
Proof.
  unfold decode.
  destruct (map_opt BASE_MAP (list_ascii_of_string s)) as [ds|] eqn:H;
    [|discriminate].
  intros [= <-]. destruct (map_opt_digits _ _ H) as [Hr _].
  apply Forall_app. split; [apply Forall_repeat; lia|].
  apply (to_digits_spec 256); [lia|].
  apply of_digits_nonneg; [unfold BASE; lia | assumption].
Qed.

Lemma encode_decode (s : string) (b : bytes) :
  decode s = Some b -> encode b = s.
Proof.
  unfold decode.
  destruct (map_opt BASE_MAP (list_ascii_of_string s)) as [ds|] eqn:H;
    [|discriminate].
  intros [= <-].
  destruct (digits_split _ _ H) as (rest & Eds & Hcan & Ecs).
  set (k := leading (Ascii.eqb LEADER) (list_ascii_of_string s)) in *.
  assert (Hn : 0 <= of_digits BASE rest)
    by (apply of_digits_nonneg; [unfold BASE; lia | apply Hcan]).
  destruct (to_digits_spec 256 (of_digits BASE rest)) as [Hc256 Hv256];
    [lia | assumption |].
  rewrite Eds, of_digits_zeros. unfold encode.
  rewrite of_digits_zeros, Hv256.
  rewrite to_digits_of_digits by (unfold BASE; lia || assumption).
  rewrite leading_app_stop.
  - rewrite repeat_length, <- Ecs. apply string_of_list_ascii_of_string.
  - apply Forall_repeat. reflexivity.
  - destruct Hc256 as [_ Hh].
    destruct (to_digits 256 (of_digits BASE rest)) as [|d r]; [exact I|].
    now apply Z.eqb_neq, not_eq_sym.
Qed.

End Base58Texts.

(** X1. Every text that [bs58.decode] accepts is the encoding of the bytes
    it decodes to: the bytes are in range and [bs58.encode] gives the text
    back, so no two texts decode to the same bytes. *)
Theorem base58_decode_then_encode (s : string) (b : bytes) :
  Base58.decode s = Some b -> is_bytes b /\ Base58.encode b = s.
Proof.
  intros H. split;
    [exact (Base58Texts.decode_bytes s b H)
    | exact (Base58Texts.encode_decode s b H)].
Qed.

Lemma base58_decode_then_encode_witness :
  Base58.decode "2VfYr" = Some [1; 2; 3; 255] /\
  is_bytes [1; 2; 3; 255] /\ Base58.encode [1; 2; 3; 255] = "2VfYr"%string.
Proof.
  assert (H : Base58.decode "2VfYr" = Some [1; 2; 3; 255])
    by (vm_compute; reflexivity).
  split; [exact H|]. exact (base58_decode_then_encode _ _ H).
Defined.

(* ------------------------------------------------------------------------- *)
(** ** What every wallet built by the constructor satisfies *)

Lemma coerce_is_bytes (rt : Runtime) (items : list JSValue) (b : bytes) :
  coerce rt items = Some b -> is_bytes b.
Proof.
  revert b. induction items as [|v r IH]; cbn [coerce]; intros b.
  - intros [= <-]. constructor.
  - destruct (ToNumber rt v) as [n|]; [|discriminate].
    destruct (coerce rt r) as [bs|]; [|discriminate].
    intros [= <-]. constructor; [|now apply IH].
    unfold to_uint8. apply Z.mod_pos_bound. lia.
Qed.

Lemma checked_keypair_spec (rt : Runtime) (sk : bytes) (kp : Keypair) :
  checked_keypair rt sk = Some kp ->
  kp = keypair_of sk /\ length sk = 64%nat /\
  skipn 32 sk = ed25519_getPublicKey rt (firstn 32 sk).
Proof.
  unfold checked_keypair.
  destruct (Nat.eqb_spec (length sk) 64) as [Hlen|]; [|discriminate].
  destruct (list_eq_dec Z.eq_dec (skipn 32 sk)
              (ed25519_getPublicKey rt (firstn 32 sk))) as [Hpub|];
    [|discriminate].
  intros [= <-]. repeat split; assumption.
Qed.

Lemma parseIdentity_valid (rt : Runtime) (raw : string) (kp : Keypair) :
  parseIdentity rt raw = Some kp ->
  valid_secret_key rt (secretKey kp) /\ kp = keypair_of (secretKey kp).
Proof.
  unfold parseIdentity, first_success, decoder_base58, decoder_array.
  assert (Hok : forall sk, is_bytes sk -> checked_keypair rt sk = Some kp ->
                  valid_secret_key rt (secretKey kp) /\
                  kp = keypair_of (secretKey kp)).
  { intros sk Hb Hc. destruct (checked_keypair_spec rt sk kp Hc)
      as (-> & Hlen & Hpub). cbn [secretKey keypair_of].
    repeat split; assumption. }
  destruct (Base58.decode raw) as [b|] eqn:Hd.
  - destruct (checked_keypair rt b) as [kp'|] eqn:Hc.
    + intros [= <-]. apply (Hok b); [|assumption].
      exact (Base58Texts.decode_bytes raw b Hd).
    + destruct (JSON_parse rt raw) as [[| | | |items|]|]; try discriminate.
      destruct (Nat.eqb (length items) 64); [|discriminate].
      destruct (coerce rt items) as [b'|] eqn:Hco; [|discriminate].
      destruct (checked_keypair rt b') as [kp'|] eqn:Hc'; [|discriminate].
      intros [= <-]. apply (Hok b'); [|assumption].
      exact (coerce_is_bytes rt items b' Hco).
  - destruct (JSON_parse rt raw) as [[| | | |items|]|]; try discriminate.
    destruct (Nat.eqb (length items) 64); [|discriminate].
    destruct (coerce rt items) as [b'|] eqn:Hco; [|discriminate].
    destruct (checked_keypair rt b') as [kp'|] eqn:Hc'; [|discriminate].
    intros [= <-]. apply (Hok b'); [|assumption].
    exact (coerce_is_bytes rt items b' Hco).
Qed.

Lemma constructor_returns (rt : Runtime) (raw : string) (st st' : State)
    (w : WalletManager.t) :
  WalletManager.constructor rt raw st = (Return w, st') ->
  parseIdentity rt raw = Some (WalletManager.keypair w) /\
  st' = wallet_loaded st (WalletManager.keypair w).
Proof.
  rewrite constructor_refines_parseIdentity.
  destruct (parseIdentity rt raw) as [kp|]; [|discriminate].
  intros [= <- <-]. split; reflexivity.
Qed.

Lemma valid_public_key_length (rt : Runtime) (sk : bytes) :
  valid_secret_key rt sk ->
  length (skipn 32 sk) = 32%nat /\ is_bytes (skipn 32 sk).
Proof.
  intros (Hlen & Hb & _). split.
  - rewrite length_skipn, Hlen. reflexivity.
  - unfold is_bytes in *. rewrite <- (firstn_skipn 32 sk) in Hb.
    now apply Forall_app in Hb.
Qed.

(** X2. Every wallet the constructor builds, from either encoding, holds
    a 64-byte secret key whose bytes are in range and whose last 32 bytes
    are the public key derived from the first 32; its public key is these
    32 bytes. The constructor makes no RPC call and prints its two lines. *)
Theorem constructor_wallet_invariant (rt : Runtime) (raw : string)
    (st st' : State) (w : WalletManager.t) :
  WalletManager.constructor rt raw st = (Return w, st') ->
  let kp := WalletManager.getKeypair w in
  length (secretKey kp) = 64%nat /\
  is_bytes (secretKey kp) /\
  publicKey kp = skipn 32 (secretKey kp) /\
  publicKey kp = ed25519_getPublicKey rt (firstn 32 (secretKey kp)) /\
  length (publicKey kp) = 32%nat /\
  calls st' = calls st /\
  console st' = console st ++
                [LogWalletLoaded; LogPublicKey (toBase58 (publicKey kp))].
Proof.
  intros H kp. subst kp. unfold WalletManager.getKeypair.
  destruct (constructor_returns rt raw st st' w H) as [Hp ->].
  destruct (parseIdentity_valid rt raw _ Hp) as [Hv Hkp].
  destruct (valid_public_key_length rt _ Hv) as [Hlen Hb].
  destruct Hv as (Hl & Hbs & Hpub).
  assert (Hpk : publicKey (WalletManager.keypair w)
                = skipn 32 (secretKey (WalletManager.keypair w)))
    by (rewrite Hkp at 1; reflexivity).
  repeat split; try assumption.
  - now rewrite Hpk.
  - now rewrite Hpk.
  - cbn [wallet_loaded console]. now rewrite <- app_assoc.
Qed.

Lemma constructor_wallet_invariant_witness :
  let raw := Base58.encode (secretKey example_keypair) in
  let w := {| WalletManager.keypair := example_keypair |} in
  WalletManager.constructor example_runtime raw initial
    = (Return w, wallet_loaded initial example_keypair) /\
  length (secretKey example_keypair) = 64%nat /\
  is_bytes (secretKey example_keypair).
Proof.
  intros raw w.
  assert (H : WalletManager.constructor example_runtime raw initial
              = (Return w, wallet_loaded initial example_keypair))
    by (vm_compute; reflexivity).
  split; [exact H|].
  destruct (constructor_wallet_invariant example_runtime raw initial _ w H)
    as (H1 & H2 & _).
  split; [exact H1 | exact H2].
Defined.

(** X3. The private key a wallet exports can always be imported again: for
    every wallet the constructor built, from a base-58 text or from an
    array, the constructor applied to [getPrivateKey] of the wallet builds
    the same wallet. *)
Theorem constructor_export_reimport (rt : Runtime) (raw : string)
    (st st' st2 : State) (w : WalletManager.t) :
  WalletManager.constructor rt raw st = (Return w, st') ->
  WalletManager.constructor rt (WalletManager.getPrivateKey w) st2
    = (Return w, wallet_loaded st2 (WalletManager.keypair w)).
Proof.
  intros H. destruct (constructor_returns rt raw st st' w H) as [Hp _].
  destruct (parseIdentity_valid rt raw _ Hp) as [Hv Hkp].
  rewrite constructor_refines_parseIdentity.
  unfold WalletManager.getPrivateKey.
  rewrite (parseIdentity_base58 rt _ Hv), <- Hkp.
  destruct w. reflexivity.
Qed.

Lemma constructor_export_reimport_witness :
  let w := {| WalletManager.keypair := example_keypair |} in
  WalletManager.constructor example_runtime fractional_key_text initial
    = (Return w, wallet_loaded initial example_keypair) /\
  WalletManager.constructor example_runtime (WalletManager.getPrivateKey w)
    initial = (Return w, wallet_loaded initial example_keypair).
Proof.
  intros w.
  assert (H : WalletManager.constructor example_runtime fractional_key_text
                initial = (Return w, wallet_loaded initial example_keypair))
    by (vm_compute; reflexivity).
  split; [exact H|].
  exact (constructor_export_reimport example_runtime fractional_key_text
           initial _ initial w H).
Defined.

(** X4. A base-58 text that decodes to a valid secret key is imported as
    that key and exported unchanged: [getPrivateKey] of the wallet is the
    text that was given. *)
Theorem base58_import_exports_same_text (rt : Runtime) (raw : string)
    (sk : bytes) (st : State) :
  Base58.decode raw = Some sk ->
  length sk = 64%nat ->
  skipn 32 sk = ed25519_getPublicKey rt (firstn 32 sk) ->
  let w := {| WalletManager.keypair := keypair_of sk |} in
  WalletManager.constructor rt raw st
    = (Return w, wallet_loaded st (keypair_of sk)) /\
  WalletManager.getPrivateKey w = raw.
Proof.
  intros Hd Hlen Hpub w.
  assert (Hv : valid_secret_key rt sk).
  { repeat split; try assumption. exact (Base58Texts.decode_bytes raw sk Hd). }
  split.
  - rewrite constructor_refines_parseIdentity.
    unfold parseIdentity, first_success, decoder_base58.
    now rewrite Hd, (checked_keypair_valid rt sk Hv).
  - exact (Base58Texts.encode_decode raw sk Hd).
Qed.

Lemma base58_import_exports_same_text_witness :
  let raw :=
    "49W385L4rePHy6PAaQUovbD2aacgN4HsKXSMeUzRg4fmwXszN91JuMFrQRj3vMDpZuRF3ZknQBuRBoWQJEfXstMw"%string in
  Base58.decode raw = Some (secretKey example_keypair) /\
  WalletManager.getPrivateKey
    {| WalletManager.keypair := keypair_of (secretKey example_keypair) |}
    = raw.
Proof.
  intros raw.
  assert (Hd : Base58.decode raw = Some (secretKey example_keypair))
    by (vm_compute; reflexivity).
  split; [exact Hd|].
  exact (proj2 (base58_import_exports_same_text example_runtime raw
                  (secretKey example_keypair) initial Hd eq_refl
                  ltac:(vm_compute; reflexivity))).
Defined.

(* ------------------------------------------------------------------------- *)
(** ** [validatePublicKey] *)

Lemma validatePublicKey_run (address : string) (st : State) :
  validatePublicKey address st =
  (Return (match Base58.decode address with
           | Some b => Nat.eqb (length b) 32
           | None => false
           end), st).
Proof.
  unfold validatePublicKey, PublicKey_new, try_catch, bind, bs58_decode,
    throw, ret.
  destruct (Base58.decode address) as [b|]; [|reflexivity].
  destruct (Nat.eqb (length b) 32); reflexivity.
Qed.

(** X5. [validatePublicKey] never throws and makes no call; it answers
    [true] exactly for the base-58 texts of 32-byte keys, so a text it
    accepts is the address [toBase58] prints for the key it stands for. *)
Theorem validatePublicKey_accepts_addresses (address : string) (st : State) :
  snd (validatePublicKey address st) = st /\
  (fst (validatePublicKey address st) = Return true <->
   exists k, is_bytes k /\ length k = 32%nat /\ address = toBase58 k) /\
  (fst (validatePublicKey address st) = Return false <->
   ~ exists k, is_bytes k /\ length k = 32%nat /\ address = toBase58 k).
Proof.
  rewrite validatePublicKey_run. cbn [fst snd]. split; [reflexivity|].
  assert (Hiff : match Base58.decode address with
                 | Some b => Nat.eqb (length b) 32
                 | None => false
                 end = true <->
                 exists k, is_bytes k /\ length k = 32%nat /\
                           address = toBase58 k).
  { split.
    - destruct (Base58.decode address) as [b|] eqn:Hd; [|discriminate].
      intros Hlen. apply Nat.eqb_eq in Hlen. exists b.
      split; [exact (Base58Texts.decode_bytes _ _ Hd)|].
      split; [exact Hlen|]. symmetry.
      exact (Base58Texts.encode_decode _ _ Hd).
    - intros (k & Hb & Hlen & ->). unfold toBase58.
      rewrite (Base58Facts.decode_encode k Hb). now apply Nat.eqb_eq. }
  split.
  - rewrite <- Hiff. split; [now intros [= ->] | now intros ->].
  - rewrite <- Hiff.
    destruct (match Base58.decode address with
              | Some b => Nat.eqb (length b) 32
              | None => false
              end); split; congruence.
Qed.

(* ------------------------------------------------------------------------- *)
(** ** More on the transfer pipeline *)

Lemma skipn_own_length {A} (l m : list A) : skipn (length l) (l ++ m) = m.
Proof. induction l as [|x l IH]; [reflexivity | exact IH]. Qed.

Section TransferMore.
Import TransferManager.
Variable connection : Connection.
Variables (kp : Keypair) (to : PublicKey) (amountSOL : number) (st : State).

(** X6. An amount that is not a whole number of lamports (such as 0.067
    SOL, or NaN) cannot be sent: [estimateTransactionFee] throws a
    [RangeError] before any RPC call, and [sendSOL] throws it after its
    account and balance queries, whatever the balance is. *)
Theorem fractional_amount_is_refused (b : Z) :
  to_bigint (mul amountSOL LAMPORTS_PER_SOL) = None ->
  (exists info,
     rpc_getAccountInfo connection (now st) (publicKey kp) = Resolved info /\
     sender_accepted info) ->
  rpc_getBalance connection (now st + 1) (publicKey kp) = Resolved b ->
  estimateTransactionFee connection (publicKey kp) to amountSOL st
    = (Throw RangeError, st) /\
  exists st',
    sendSOL connection kp to amountSOL st = (Throw RangeError, st') /\
    calls st' = calls st ++
                [GetAccountInfo (publicKey kp); GetBalance (publicKey kp)].
Proof.
  intros Hz (info & Hinfo & Hacc) Hbal. unfold now in *. split.
  - run_js. rewrite Hz. reflexivity.
  - eexists. run_js. answer Hinfo.
    assert (Hpass :
      match info with
      | Some i => negb (String.eqb (toBase58 (owner i)) SYSTEM_PROGRAM_ID)
      | None => false
      end = false).
    { destruct info as [i|]; [|reflexivity]. simpl in Hacc. rewrite Hacc.
      now rewrite String.eqb_refl. }
    destruct info as [i|]; [rewrite Hpass|]; run_js.
    all: answer Hbal; rewrite Hz; run_js.
    all: split; [reflexivity | cbn [calls]; now rewrite <- app_assoc].
Qed.

(** X7. Whatever the node answers, the calls of one run of [sendSOL] are
    an initial part of this sequence: account query, balance query,
    blockhash query, fee query, blockhash query, submission, log query.
    So a run submits at most once, and after a submission it makes no call
    but the log query. *)
Theorem sendSOL_calls_are_a_prefix :
  exists z h1 h2 made rest,
    calls (snd (sendSOL connection kp to amountSOL st)) = calls st ++ made /\
    made ++ rest = calls_until_submission kp to z h1 h2 ++ [GetLogs].
Proof.
  unfold calls_until_submission, calls_until_check, transfer_transaction,
    transfer_message, transfer_instruction.
  run_js.
  repeat split_answer.
  all: cbn [snd calls]; rewrite <- ?app_assoc; cbn [app].
  all: unshelve (do 5 eexists; split; [reflexivity | cbn [app]; reflexivity]).
  all: first [exact 0 | exact EmptyString].
Qed.

(** X8. [sendSOL] submits only after its checks: in every run that
    contains a submission, the sender was accepted, the amount is a whole
    number of lamports, and the balance answered by the balance query did
    not compare below the total. *)
Theorem sendSOL_submits_only_after_checks :
  existsb is_submission
    (skipn (now st) (calls (snd (sendSOL connection kp to amountSOL st))))
    = true ->
  exists z h2, reaches_submission connection st kp to amountSOL z h2.
Proof.
  enough (K : forall Q : Prop,
             (forall z h2,
                reaches_submission connection st kp to amountSOL z h2 -> Q) ->
             existsb is_submission
               (skipn (now st)
                  (calls (snd (sendSOL connection kp to amountSOL st))))
               = true -> Q).
  { intros H. apply (K _ (fun z h2 Hr => ex_intro _ z (ex_intro _ h2 Hr)) H). }
  intros Q HQ. unfold now at 1. run_js.
  repeat split_answer.
  all: cbn [snd calls]; rewrite <- ?app_assoc; rewrite skipn_own_length;
    cbn [app existsb is_submission orb]; try discriminate.
  all: intros _.
  all: match goal with
       | Hi : rpc_getAccountInfo _ _ _ = Resolved ?info,
         Hb : rpc_getBalance _ _ _ = Resolved ?b,
         Hz : to_bigint _ = Some ?z,
         H1 : rpc_getLatestBlockhash _ (_ + 2) = Resolved ?h1,
         Hf : rpc_getFeeForMessage _ _ _ = Resolved ?v,
         Hl : lt _ _ = false,
         H2 : rpc_getLatestBlockhash _ (_ + 4) = Resolved ?h2 |- _ =>
           apply (HQ z h2); exists b, h1, v;
           split; [|split; [exact Hl | exact H2]];
           split; [exists info; split; [exact Hi|]
                  | split; [exact Hb | split; [exact Hz
                  | split; [exact H1 | exact Hf]]]]
       end.
  all: cbn [sender_accepted]; try exact I.
  all: match goal with
       | He : String.eqb _ _ = true |- _ => now apply String.eqb_eq
       end.
Qed.



End TransferMore.

Lemma fractional_amount_is_refused_witness :
  let connection := steady_node 1000000000 (Some 5000) in
  to_bigint (mul (ratio 67 1000) LAMPORTS_PER_SOL) = None /\
  exists st',
    TransferManager.sendSOL connection example_keypair example_recipient
      (ratio 67 1000) initial = (Throw RangeError, st') /\
    calls st' = calls initial ++
                [GetAccountInfo (publicKey example_keypair);
                 GetBalance (publicKey example_keypair)].
Proof.
  intros connection.
  assert (Hz : to_bigint (mul (ratio 67 1000) LAMPORTS_PER_SOL) = None)
    by by_computation.
  split; [exact Hz|].
  exact (proj2 (fractional_amount_is_refused connection example_keypair
                  example_recipient (ratio 67 1000) initial 1000000000 Hz
                  (ex_intro _ None (conj eq_refl I)) eq_refl)).
Defined.

Lemma sendSOL_submits_only_after_checks_witness :
  let connection := steady_node 1000000000 (Some 5000) in
  exists z h2,
    reaches_submission connection initial example_keypair example_recipient
      (ratio 1 2) z h2.
Proof.
  intros connection.
  apply (sendSOL_submits_only_after_checks connection example_keypair
           example_recipient (ratio 1 2) initial).
  by_computation.
Defined.



(* ------------------------------------------------------------------------- *)
(** ** The two checks of the account's owner, and [importWallet] *)

Section OwnerChecks.
Import TransferManager.
Variable connection : Connection.
Variables (kp : Keypair) (to : PublicKey) (amountSOL : number) (st : State).

(** X11. [validateForTransactions] and the sender check of [sendSOL] agree:
    on the same answer of the account query, the one throws its "cannot
    sign" error for an owner exactly when the other throws its "invalid
    sender" error for that owner. *)
Theorem owner_checks_agree (o : string) :
  fst (WalletManager.validateForTransactions
         {| WalletManager.keypair := kp |} connection st)
    = Throw (Error (AccountCannotSign o)) <->
  fst (sendSOL connection kp to amountSOL st)
    = Throw (Error (InvalidSenderAccount o)).
Proof.
  run_js. cbn [WalletManager.keypair]. split.
  - split_answer; try discriminate.
    split_answer; cbn [fst]; [discriminate|].
    intros [= <-]. reflexivity.
  - split_answer; cbn [fst]; try discriminate.
    + split_answer; cbn [fst].
      * repeat split_answer; cbn [fst]; discriminate.
      * intros [= <-]. reflexivity.
    + repeat split_answer; cbn [fst]; discriminate.
Qed.

(** X12. For an account that exists and whose owner is a well-formed key,
    [validateForTransactions] returns normally exactly when the owner is
    the system program (32 zero bytes); it then prints that the validation
    passed. *)
Theorem validateForTransactions_accepts_system_owner (info : AccountInfo) :
  rpc_getAccountInfo connection (now st) (publicKey kp)
    = Resolved (Some info) ->
  is_bytes (owner info) ->
  (owner info = SYSTEM_PROGRAM <->
   WalletManager.validateForTransactions
     {| WalletManager.keypair := kp |} connection st
   = (Return tt,
      {| calls := calls st ++ [GetAccountInfo (publicKey kp)];
         console := console st ++ [LogValidationPassed] |})).
Proof.
  intros Hq Hb. unfold now in Hq. run_js. cbn [WalletManager.keypair].
  answer Hq. split.
  - intros ->. now rewrite system_program_base58, String.eqb_refl.
  - destruct (Bool.bool_dec
                (String.eqb (toBase58 (owner info)) SYSTEM_PROGRAM_ID) true)
      as [E|E].
    + intros _. apply String.eqb_eq in E.
      rewrite <- system_program_base58 in E.
      apply (Base58Facts.encode_inj _ _ Hb is_bytes_system_program E).
    + apply Bool.not_true_is_false in E. rewrite E. discriminate.
Qed.

End OwnerChecks.

Lemma validateForTransactions_accepts_system_owner_witness :
  let connection := program_owned_node SYSTEM_PROGRAM in
  WalletManager.validateForTransactions
    {| WalletManager.keypair := example_keypair |} connection initial
  = (Return tt,
     {| calls := calls initial ++ [GetAccountInfo (publicKey example_keypair)];
        console := console initial ++ [LogValidationPassed] |}).
Proof.
  intros connection.
  apply (proj1 (validateForTransactions_accepts_system_owner connection
                  example_keypair initial
                  {| owner := SYSTEM_PROGRAM; lamports := 0 |}
                  eq_refl is_bytes_system_program)).
  reflexivity.
Defined.

Section ImportWallet.
Variable rt : Runtime.
Variable connection : Connection.
Variables (raw : string) (st : State).

Ltac run_import :=
  unfold importWallet, try_catch, bind;
  rewrite constructor_refines_parseIdentity;
  destruct (parseIdentity rt raw) as [k|]; unfold wallet_loaded;
  [run_js; cbn [WalletManager.keypair]; tick |].

(** X13. [importWallet] never throws, and it keeps a wallet exactly when
    the constructor built it from the text given and the account query
    then answered that the account is absent or owned by the system
    program; in every other case [state.wallet] is left empty. *)
Theorem importWallet_keeps_validated_wallets :
  (exists r, fst (importWallet rt connection raw st) = Return r) /\
  forall w,
    fst (importWallet rt connection raw st) = Return (Some w) <->
    fst (WalletManager.constructor rt raw st) = Return w /\
    exists info,
      rpc_getAccountInfo connection (now st)
        (publicKey (WalletManager.keypair w)) = Resolved info /\
      sender_accepted info.
Proof.
  split.
  - run_import; [|eexists; reflexivity].
    destruct (rpc_getAccountInfo connection (length (calls st)) (publicKey k))
      as [[i|]|[m|m]]; run_js; try (eexists; reflexivity).
    destruct (String.eqb (toBase58 (owner i)) SYSTEM_PROGRAM_ID);
      eexists; reflexivity.
  - intros w. unfold now.
    rewrite (constructor_refines_parseIdentity rt raw st).
    run_import; cbn [fst]; [|split; [discriminate | intros [[=] _]]].
    destruct (rpc_getAccountInfo connection (length (calls st)) (publicKey k))
      as [[i|]|[m|m]] eqn:Hq; run_js; cbn [fst].
    + destruct (String.eqb (toBase58 (owner i)) SYSTEM_PROGRAM_ID) eqn:He;
        cbn [negb fst]; split.
      * intros [= <-]. cbn [WalletManager.keypair]. split; [reflexivity|].
        exists (Some i). split; [exact Hq | now apply String.eqb_eq].
      * intros [[= <-] _]. reflexivity.
      * discriminate.
      * intros [[= <-] (info & Hi & Ha)]. cbn [WalletManager.keypair] in Hi.
        rewrite Hq in Hi. injection Hi as <-. cbn in Ha.
        apply String.eqb_eq in Ha. congruence.
    + split.
      * intros [= <-]. cbn [WalletManager.keypair]. split; [reflexivity|].
        exists None. split; [exact Hq | exact I].
      * intros [[= <-] _]. reflexivity.
    + split; [discriminate|].
      intros [[= <-] (info & Hi & _)]. cbn [WalletManager.keypair] in Hi.
      rewrite Hq in Hi. discriminate Hi.
    + split; [discriminate|].
      intros [[= <-] (info & Hi & _)]. cbn [WalletManager.keypair] in Hi.
      rewrite Hq in Hi. discriminate Hi.
Qed.

(** X14. A valid key is not enough to import a wallet: when the account
    query fails (the network is down, say), [importWallet] prints the
    failure and leaves [state.wallet] empty, although the constructor had
    built the wallet. *)
Theorem importWallet_rolls_back_on_query_failure (w : WalletManager.t)
    (st1 : State) (e : RpcError) :
  WalletManager.constructor rt raw st = (Return w, st1) ->
  rpc_getAccountInfo connection (now st)
    (publicKey (WalletManager.keypair w)) = Rejected e ->
  exists st',
    importWallet rt connection raw st = (Return None, st') /\
    calls st' = calls st ++
                [GetAccountInfo (publicKey (WalletManager.keypair w))] /\
    console st' = console st ++
                  [LogWalletLoaded;
                   LogPublicKey (toBase58 (publicKey (WalletManager.keypair w)));
                   LogWalletImported;
                   LogPublicKey (toBase58 (publicKey (WalletManager.keypair w)));
                   ErrImportingWallet (thrown e);
                   LogErrorHelp (thrown e)].
Proof.
  intros Hc Hq. destruct (constructor_returns rt raw st st1 w Hc) as [Hp _].
  unfold now in Hq. unfold importWallet, try_catch, bind.
  rewrite constructor_refines_parseIdentity, Hp. unfold wallet_loaded.
  run_js. cbn [WalletManager.getPublicKey WalletManager.keypair]. tick.
  rewrite Hq. run_js. eexists. split; [reflexivity|].
  cbn [calls console]. split; [reflexivity|].
  rewrite <- !app_assoc. destruct e; reflexivity.
Qed.

End ImportWallet.

Lemma importWallet_rolls_back_on_query_failure_witness :
  let connection :=
    {| rpc_getAccountInfo := fun _ _ => Rejected (RpcFailure "fetch failed");
       rpc_getBalance := fun _ _ => Resolved 0;
       rpc_getLatestBlockhash := fun _ => Resolved "blockhash"%string;
       rpc_getFeeForMessage := fun _ _ => Resolved None;
       rpc_sendAndConfirm := fun _ _ _ => Resolved "signature"%string;
       rpc_getLogs := fun _ => Resolved None |} in
  let raw := Base58.encode (secretKey example_keypair) in
  exists st',
    importWallet example_runtime connection raw initial = (Return None, st') /\
    calls st' = [GetAccountInfo (publicKey example_keypair)].
Proof.
  intros connection raw.
  destruct (importWallet_rolls_back_on_query_failure example_runtime
              connection raw initial
              {| WalletManager.keypair := example_keypair |}
              (wallet_loaded initial example_keypair)
              (RpcFailure "fetch failed")
              ltac:(vm_compute; reflexivity) eq_refl)
    as (st' & H1 & H2 & _).
  exists st'. split; [exact H1 | exact H2].
Defined.

(* ------------------------------------------------------------------------- *)
(** * The help shown for an error ([showErrorHelp]) *)

Module TextFacts.

Lemma list_of_append (a b : string) :
  list_ascii_of_string (a ++ b)%string
  = list_ascii_of_string a ++ list_ascii_of_string b.
Proof. induction a as [|c a IH]; simpl; [reflexivity | now rewrite IH]. Qed.

Lemma starts_with_nil (t : list ascii) : starts_with [] t = true.
Proof. now destruct t. Qed.

Lemma starts_with_agrees (n : list ascii) :
  forall a T, starts_with n (a ++ T) = true -> agrees n a = true.
Proof.
  induction n as [|x n IH]; intros [|y a] T H; simpl in *; try reflexivity.
  apply andb_true_iff in H as [H1 H2]. rewrite H1. simpl. now apply (IH a T).
Qed.

Lemma starts_with_app (n : list ascii) :
  forall T B, starts_with n T = true -> starts_with n (T ++ B) = true.
Proof.
  induction n as [|x n IH]; intros T B H; [apply starts_with_nil|].
  destruct T as [|y T]; simpl in *; [discriminate H|].
  apply andb_true_iff in H as [H1 H2]. rewrite H1. simpl. now apply IH.
Qed.

Lemma includes_app_r (n A : list ascii) :
  forall T, includes_list T n = true -> includes_list (A ++ T) n = true.
Proof.
  induction A as [|c A IH]; intros T H; [exact H|].
  cbn [app includes_list]. rewrite (IH T H). apply orb_true_r.
Qed.

Lemma includes_app_l (n : list ascii) :
  forall T B, includes_list T n = true -> includes_list (T ++ B) n = true.
Proof.
  induction T as [|c T IH]; intros B H.
  - cbn [includes_list] in H. rewrite orb_false_r in H.
    destruct n; [|discriminate H]. destruct B; reflexivity.
  - cbn [app includes_list] in H |- *. apply orb_true_iff in H as [H|H].
    + pose proof (starts_with_app n (c :: T) B H) as K.
      cbn [app] in K. now rewrite K.
    + rewrite (IH B H). apply orb_true_r.
Qed.

Lemma includes_head (c : ascii) (n : list ascii) :
  forall t, includes_list t (c :: n) = true ->
            existsb (Ascii.eqb c) t = true.
Proof.
  induction t as [|a t IH]; intros H; cbn in H; [discriminate H|].
  cbn [existsb]. apply orb_true_iff in H as [H|H].
  - apply andb_true_iff in H as [H _]. now rewrite H.
  - rewrite (IH H). apply orb_true_r.
Qed.

Lemma existsb_within (c : ascii) (L t : list ascii) :
  Forall (fun x => In x L) t -> existsb (Ascii.eqb c) L = false ->
  existsb (Ascii.eqb c) t = false.
Proof.
  intros Ht HL. destruct (existsb (Ascii.eqb c) t) eqn:E; [|reflexivity].
  apply existsb_exists in E as (x & Hx & Hc). apply Ascii.eqb_eq in Hc.
  subst x. rewrite Forall_forall in Ht. specialize (Ht c Hx).
  assert (existsb (Ascii.eqb c) L = true) as K.
  { apply existsb_exists. exists c. split; [exact Ht | apply Ascii.eqb_refl]. }
  congruence.
Qed.

Lemma includes_app_clear (n : list ascii) :
  forall A T, clear_of n A = true ->
              includes_list (A ++ T) n = includes_list T n.
Proof.
  induction A as [|c A IH]; intros T H; [reflexivity|].
  cbn [clear_of] in H. apply andb_true_iff in H as [H1 H2].
  cbn [app includes_list]. rewrite (IH T H2).
  destruct (starts_with n (c :: A ++ T)) eqn:E; [|reflexivity].
  apply (starts_with_agrees n (c :: A) T) in E. rewrite E in H1.
  discriminate H1.
Qed.

Lemma starts_with_free (s : ascii) (o : list ascii) :
  forall n T,
    Forall (fun c => c <> s) o -> starts_with n (o ++ T) = true ->
    exists k, (k <= length n)%nat /\
              existsb (Ascii.eqb s) (firstn k n) = false /\
              starts_with (skipn k n) T = true.
Proof.
  induction o as [|c o IH]; intros n T Ho H.
  - exists 0%nat. repeat split; [apply Nat.le_0_l | exact H].
  - destruct n as [|a n].
    + exists 0%nat. repeat split. apply Nat.le_0_l.
    + cbn [app starts_with] in H. apply andb_true_iff in H as [H1 H2].
      apply Ascii.eqb_eq in H1. subst a.
      pose proof (Forall_inv Ho) as Hc. pose proof (Forall_inv_tail Ho) as Ho'.
      destruct (IH n T Ho' H2) as (k & Hk & He & Hs).
      exists (S k). cbn [length firstn skipn existsb].
      split; [now apply le_n_S|]. split; [|exact Hs]. rewrite He.
      destruct (Ascii.eqb s c) eqn:E; [|reflexivity].
      apply Ascii.eqb_eq in E. congruence.
Qed.

Lemma includes_free (s : ascii) (n B : list ascii) (o : list ascii) :
  Forall (fun c => c <> s) o -> blocked s n B = true ->
  includes_list B n = false -> includes_list (o ++ B) n = false.
Proof.
  intros Ho Hb Hr. induction o as [|c o IH]; [exact Hr|].
  pose proof (Forall_inv_tail Ho) as Ho'.
  cbn [app includes_list]. rewrite (IH Ho'), orb_false_r.
  destruct (starts_with n (c :: o ++ B)) eqn:E; [|reflexivity].
  destruct (starts_with_free s (c :: o) n B Ho E) as (k & Hk & He & Hs).
  rewrite <- (app_nil_r B) in Hs. apply starts_with_agrees in Hs.
  unfold blocked in Hb. rewrite forallb_forall in Hb.
  assert (In k (seq 0 (S (length n)))) as Hin.
  { apply in_seq. split; [apply Nat.le_0_l | now apply le_n_S]. }
  apply Hb in Hin. rewrite He, Hs in Hin. discriminate Hin.
Qed.

Lemma starts_with_split (c : ascii) (n : list ascii) :
  existsb (Ascii.eqb c) n = false ->
  forall X Y, starts_with n (X ++ c :: Y) = starts_with n X.
Proof.
  induction n as [|a n IH]; intros Hc X Y.
  - now rewrite !starts_with_nil.
  - cbn [existsb] in Hc. apply orb_false_iff in Hc as [H1 H2].
    destruct X as [|x X]; cbn [app starts_with].
    + destruct (Ascii.eqb a c) eqn:E; [|reflexivity].
      apply Ascii.eqb_eq in E. subst a. rewrite Ascii.eqb_refl in H1.
      discriminate H1.
    + now rewrite (IH H2).
Qed.

Lemma includes_split (c : ascii) (n : list ascii) :
  existsb (Ascii.eqb c) n = false ->
  forall X Y,
    includes_list (X ++ c :: Y) n = includes_list X n || includes_list Y n.
Proof.
  intros Hc. induction X as [|x X IH]; intros Y.
  - pose proof (starts_with_split c n Hc [] Y) as K. cbn [app] in K.
    cbn [app includes_list]. rewrite K, orb_false_r. reflexivity.
  - change (includes_list ((x :: X) ++ c :: Y) n)
      with (starts_with n ((x :: X) ++ c :: Y)
            || includes_list (X ++ c :: Y) n).
    rewrite (starts_with_split c n Hc (x :: X) Y), IH.
    cbn [includes_list]. now rewrite orb_assoc.
Qed.

Lemma includes_after (s : ascii) (n t : list ascii) :
  agrees n [s] = false -> includes_list (s :: t) n = includes_list t n.
Proof.
  intros H. cbn [includes_list].
  destruct n as [|a n]; [discriminate H|]. cbn [agrees starts_with] in H |- *.
  destruct (Ascii.eqb a s); [|reflexivity].
  destruct n; discriminate H.
Qed.

Lemma encode_alphabet (b : bytes) :
  Forall (fun c => In c Base58.alphabet)
         (list_ascii_of_string (Base58.encode b)).
Proof.
  unfold Base58.encode. rewrite list_ascii_of_string_of_list_ascii.
  apply Forall_app. split; apply Forall_forall; intros x Hx.
  - apply repeat_spec in Hx. subst x. now left.
  - apply in_map_iff in Hx as (d & <- & _). unfold Base58.char_at.
    destruct (nth_in_or_default (Z.to_nat d) Base58.alphabet Base58.LEADER)
      as [H|H]; [exact H | rewrite H; now left].
Qed.

Lemma encode_no_space (b : bytes) :
  Forall (fun c => c <> " "%char) (list_ascii_of_string (Base58.encode b)).
Proof.
  pose proof (encode_alphabet b) as H. rewrite Forall_forall in H |- *.
  intros x Hx ->. specialize (H _ Hx).
  assert (existsb (Ascii.eqb " ") Base58.alphabet = true) as K.
  { apply existsb_exists. exists " "%char. split; [exact H | reflexivity]. }
  vm_compute in K. discriminate K.
Qed.

(** A text of the shape [A1 A2 owner B], where the owner has no space. *)
Lemma owner_text_excludes (A1 A2 o B n : string) :
  clear_of (list_ascii_of_string n) (list_ascii_of_string (A1 ++ A2)) = true ->
  blocked " " (list_ascii_of_string n) (list_ascii_of_string B) = true ->
  includes B n = false ->
  Forall (fun c => c <> " "%char) (list_ascii_of_string o) ->
  includes (A1 ++ A2 ++ o ++ B) n = false.
Proof.
  unfold includes. intros Hc Hb HB Ho.
  rewrite !list_of_append in *. rewrite app_assoc.
  rewrite (includes_app_clear _ _ _ Hc).
  now apply (includes_free " ").
Qed.

Lemma wrapped_text_includes (n X1 X2 msg logs : list ascii) :
  existsb (Ascii.eqb ":") n = false ->
  existsb (Ascii.eqb "010") n = false ->
  agrees n [" "%char] = false ->
  includes_list X1 n = false -> includes_list X2 n = false ->
  includes_list
    (X1 ++ ":"%char :: " "%char :: msg
        ++ "010"%char :: X2 ++ ":"%char :: " "%char :: logs) n
  = includes_list msg n || includes_list logs n.
Proof.
  intros Hcolon Hnl Hsp H1 H2.
  rewrite (includes_split ":" n Hcolon X1), H1, orb_false_l.
  rewrite (includes_after " " n _ Hsp).
  rewrite (includes_split "010" n Hnl msg). f_equal.
  rewrite (includes_split ":" n Hcolon X2), H2, orb_false_l.
  apply (includes_after " " n _ Hsp).
Qed.

End TextFacts.

Section ErrorHelp.
Variable show : number -> string.

Lemma insufficient_text_phrases (h n a f : number) :
  prints_numbers show ->
  includes (message_text show (InsufficientBalance h n a f)) FEE_PAYER_PHRASE
  = false /\
  includes (message_text show (InsufficientBalance h n a f))
    "Insufficient balance" = true.
Proof.
  intros Hshow. unfold message_text.
  assert (forall x, existsb (Ascii.eqb "T")
                      (list_ascii_of_string (show x)) = false) as HT.
  { intros x. apply (TextFacts.existsb_within _ number_chars);
      [apply Hshow | reflexivity]. }
  split.
  - destruct (includes _ FEE_PAYER_PHRASE) eqn:E; [|reflexivity].
    unfold includes in E. apply TextFacts.includes_head in E.
    rewrite !TextFacts.list_of_append, !existsb_app, !HT in E.
    vm_compute in E. discriminate E.
  - unfold includes. rewrite !TextFacts.list_of_append.
    rewrite TextFacts.includes_app_r; [reflexivity|].
    apply TextFacts.includes_app_l. reflexivity.
Qed.

Lemma invalid_sender_text_phrases (owner : PublicKey) :
  includes (message_text show (InvalidSenderAccount (toBase58 owner)))
    FEE_PAYER_PHRASE = false /\
  includes (message_text show (InvalidSenderAccount (toBase58 owner)))
    "Insufficient balance" = false.
Proof.
  pose proof (TextFacts.encode_no_space owner) as Ho. unfold message_text.
  split; apply TextFacts.owner_text_excludes; trivial; reflexivity.
Qed.

Lemma cannot_sign_text_phrases (owner : PublicKey) :
  includes (message_text show (AccountCannotSign (toBase58 owner)))
    FEE_PAYER_PHRASE = false /\
  includes (message_text show (AccountCannotSign (toBase58 owner)))
    "Insufficient balance" = false.
Proof.
  pose proof (TextFacts.encode_no_space owner) as Ho. unfold message_text.
  split; apply TextFacts.owner_text_excludes; trivial; reflexivity.
Qed.

(** The wrapping of a refused submission neither adds nor hides a phrase
    that has no colon, no newline and no space in front. *)
Lemma transaction_failed_text_includes (msg logs n : string) :
  existsb (Ascii.eqb ":") (list_ascii_of_string n) = false ->
  existsb (Ascii.eqb "010") (list_ascii_of_string n) = false ->
  agrees (list_ascii_of_string n) [" "%char] = false ->
  includes "Transaction failed" n = false ->
  includes "Logs" n = false ->
  includes (message_text show (TransactionFailed msg logs)) n
  = includes msg n || includes logs n.
Proof.
  intros H1 H2 H3 H4 H5. unfold includes, message_text.
  rewrite !TextFacts.list_of_append.
  apply (TextFacts.wrapped_text_includes (list_ascii_of_string n)
           (list_ascii_of_string "Transaction failed")
           (list_ascii_of_string "Logs")); assumption.
Qed.

(** X15. The error [sendSOL] throws when the balance is too low always gets
    the help on insufficient balance, whatever the four numbers in it. *)
Theorem insufficient_balance_gets_its_help (h n a f : number) :
  prints_numbers show ->
  showErrorHelp (message_text show (InsufficientBalance h n a f))
  = HelpInsufficientBalance.
Proof.
  intros Hshow. unfold showErrorHelp.
  destruct (insufficient_text_phrases h n a f Hshow) as [-> ->]. reflexivity.
Qed.

(** X16. The repository's own refusals of an account owned by a program
    (from [sendSOL] and from [validateForTransactions]) and of a malformed
    key never get the dedicated help: [showErrorHelp] falls through to the
    unknown-error line for each of them. *)
Theorem owner_errors_get_unknown_help (owner : PublicKey) :
  showErrorHelp (message_text show (InvalidSenderAccount (toBase58 owner)))
  = HelpUnknown /\
  showErrorHelp (message_text show (AccountCannotSign (toBase58 owner)))
  = HelpUnknown /\
  showErrorHelp (message_text show InvalidPrivateKeyFormat) = HelpUnknown.
Proof.
  unfold showErrorHelp. split; [|split].
  - destruct (invalid_sender_text_phrases owner) as [-> ->]. reflexivity.
  - destruct (cannot_sign_text_phrases owner) as [-> ->]. reflexivity.
  - reflexivity.
Qed.

(** X17. For a refused submission, which [sendSOL] rethrows as "Transaction
    failed: message, Logs: logs", the help shown depends on the node's
    message and logs alone: the fee-payer help when either contains the
    fee-payer phrase, else the balance help when either contains
    "Insufficient balance", else the unknown-error line. *)
Theorem refused_submission_help (msg logs : string) :
  showErrorHelp (message_text show (TransactionFailed msg logs))
  = if includes msg FEE_PAYER_PHRASE || includes logs FEE_PAYER_PHRASE
    then HelpFeePayer
    else if includes msg "Insufficient balance"
            || includes logs "Insufficient balance"
         then HelpInsufficientBalance
         else HelpUnknown.
Proof.
  unfold showErrorHelp.
  rewrite !transaction_failed_text_includes; reflexivity.
Qed.

End ErrorHelp.

Lemma insufficient_balance_gets_its_help_witness :
  let show := fun _ : number => "0.5"%string in
  prints_numbers show /\
  showErrorHelp
    (message_text show
       (InsufficientBalance (ratio 1 2) (ratio 1 2) (ratio 1 2) (ratio 1 2)))
  = HelpInsufficientBalance.
Proof.
  intros show.
  assert (prints_numbers show) as H.
  { intros x. cbn. repeat constructor; cbn; tauto. }
  split; [exact H|].
  exact (insufficient_balance_gets_its_help show _ _ _ _ H).
Defined.

(* ------------------------------------------------------------------------- *)
(** * The [balance] and [send] commands *)

Lemma PublicKey_new_run (address : string) (st : State) :
  PublicKey_new address st =
  match Base58.decode address with
  | Some b =>
      if Nat.eqb (length b) 32 then (Return b, st)
      else (Throw (SdkError "Invalid public key input"), st)
  | None => (Throw (SdkError "Non-base58 character"), st)
  end.
Proof.
  unfold PublicKey_new, bind, bs58_decode, throw, ret.
  destruct (Base58.decode address) as [b|]; [|reflexivity].
  destruct (Nat.eqb (length b) 32); reflexivity.
Qed.

Lemma wallet_public_key_text (rt : Runtime) (raw : string) (kp : Keypair)
    (st : State) :
  parseIdentity rt raw = Some kp ->
  PublicKey_new (toBase58 (publicKey kp)) st = (Return (publicKey kp), st).
Proof.
  intros Hp. destruct (parseIdentity_valid rt raw kp Hp) as [Hv Hkp].
  destruct (valid_public_key_length rt _ Hv) as [Hlen Hb].
  rewrite PublicKey_new_run. unfold toBase58.
  rewrite Hkp. cbn [publicKey keypair_of secretKey].
  rewrite (Base58Facts.decode_encode _ Hb), Hlen. reflexivity.
Qed.

Section Commands.
Variable rt : Runtime.
Variable parseFloat : string -> number.
Variable connection : Connection.
Variable st : State.

(** What the [balance] command does, by the answer of the node. *)
Lemma balance_command_run (privateKey : option string) :
  balance_command rt connection privateKey st =
  if missing privateKey then (Return BalanceMissingKey, st)
  else
    match parseIdentity rt (text_of privateKey) with
    | None => (Return (BalanceFailed (Error InvalidPrivateKeyFormat)), st)
    | Some kp =>
        let st' := {| calls := calls st ++ [GetBalance (publicKey kp)];
                      console := console (wallet_loaded st kp) |} in
        match rpc_getBalance connection (now st) (publicKey kp) with
        | Resolved b =>
            (Return (BalanceShown (div (of_Z b) LAMPORTS_PER_SOL)), st')
        | Rejected e => (Return (BalanceFetchFailed (thrown e)), st')
        end
    end.
Proof.
  unfold balance_command, now.
  destruct (missing privateKey); [reflexivity|]. cbn [negb].
  unfold try_catch at 1, bind at 1.
  rewrite constructor_refines_parseIdentity.
  destruct (parseIdentity rt (text_of privateKey)) as [kp|] eqn:Hp;
    [|reflexivity].
  unfold showBalance, try_catch, bind at 1, WalletManager.getPublicKey.
  cbn [WalletManager.keypair].
  rewrite (wallet_public_key_text rt _ kp _ Hp).
  unfold wallet_loaded. run_js.
  destruct (rpc_getBalance connection (length (calls st)) (publicKey kp))
    as [b|[m|m]]; reflexivity.
Qed.

(** X18. The [balance] command prints a balance exactly when the key text
    is accepted by the constructor and the balance query of that wallet's
    own public key is answered; the number printed is the answer over
    LAMPORTS_PER_SOL. Whatever happens, the command makes no other call
    than this one query. *)
Theorem balance_command_shows_own_balance (privateKey : option string) :
  let run := balance_command rt connection privateKey st in
  (forall solBalance,
     fst run = Return (BalanceShown solBalance) <->
     exists kp b,
       missing privateKey = false /\
       parseIdentity rt (text_of privateKey) = Some kp /\
       rpc_getBalance connection (now st) (publicKey kp) = Resolved b /\
       solBalance = div (of_Z b) LAMPORTS_PER_SOL) /\
  (calls (snd run) = calls st \/
   exists kp,
     parseIdentity rt (text_of privateKey) = Some kp /\
     calls (snd run) = calls st ++ [GetBalance (publicKey kp)]).
Proof.
  cbv zeta. rewrite balance_command_run.
  destruct (missing privateKey) eqn:Hm.
  { split; [|now left]. intros s. split; [discriminate|].
    intros (kp & b & H & _). discriminate H. }
  destruct (parseIdentity rt (text_of privateKey)) as [kp|] eqn:Hp.
  2:{ split; [|now left]. intros s. split; [discriminate|].
      intros (kp & b & _ & H & _). discriminate H. }
  cbv zeta.
  destruct (rpc_getBalance connection (now st) (publicKey kp))
    as [b|e] eqn:Hb; cbn [fst snd calls].
  - split; [|right; exists kp; split; reflexivity].
    intros s. split.
    + intros [= <-]. exists kp, b. repeat split. exact Hb.
    + intros (kp' & b' & _ & [= <-] & Hb' & ->).
      rewrite Hb in Hb'. injection Hb' as <-. reflexivity.
  - split; [|right; exists kp; split; reflexivity].
    intros s. split; [discriminate|].
    intros (kp' & b' & _ & [= <-] & Hb' & _).
    rewrite Hb in Hb'. discriminate Hb'.
Qed.

(** What the [send] command does before it calls [sendSOL]. *)
Lemma send_command_run (privateKey to amount : option string) :
  send_command rt parseFloat connection privateKey to amount st =
  if missing privateKey || missing to || missing amount
  then (Return SendMissingOptions, st)
  else
    match parseIdentity rt (text_of privateKey) with
    | None => (Return (SendFailed (Error InvalidPrivateKeyFormat)), st)
    | Some kp =>
        match Base58.decode (text_of to) with
        | Some pk =>
            if Nat.eqb (length pk) 32
            then
              if le (parseFloat (text_of amount)) zero
              then (Return SendAmountNotPositive, wallet_loaded st kp)
              else
                match TransferManager.sendSOL connection kp pk
                        (parseFloat (text_of amount)) (wallet_loaded st kp)
                with
                | (Return s, st') => (Return (Sent s), st')
                | (Throw e, st') => (Return (SendFailed e), st')
                end
            else (Return SendInvalidRecipient, wallet_loaded st kp)
        | None => (Return SendInvalidRecipient, wallet_loaded st kp)
        end
    end.
Proof.
  unfold send_command.
  destruct (missing privateKey || missing to || missing amount);
    [reflexivity|].
  unfold try_catch, bind at 1. rewrite constructor_refines_parseIdentity.
  destruct (parseIdentity rt (text_of privateKey)) as [kp|]; [|reflexivity].
  unfold bind at 1. rewrite validatePublicKey_run.
  destruct (Base58.decode (text_of to)) as [pk|] eqn:Hd; [|reflexivity].
  destruct (Nat.eqb (length pk) 32) eqn:Hl; [|reflexivity].
  cbn [negb].
  destruct (le (parseFloat (text_of amount)) zero); [reflexivity|].
  unfold bind at 1. rewrite PublicKey_new_run, Hd, Hl.
  unfold bind, ret, WalletManager.getKeypair. cbn [WalletManager.keypair].
  destruct (TransferManager.sendSOL connection kp pk
              (parseFloat (text_of amount)) (wallet_loaded st kp))
    as [[s|e] st']; reflexivity.
Qed.

(** X19. The [send] command never throws, and it contacts the node only
    when all three options are given, the constructor accepts the key
    text, the recipient is the base-58 text of 32 bytes and the parsed
    amount does not compare as at most zero. *)
Theorem send_command_guards (privateKey to amount : option string) :
  let run := send_command rt parseFloat connection privateKey to amount st in
  (exists report, fst run = Return report) /\
  (calls (snd run) <> calls st ->
   missing privateKey = false /\ missing to = false /\
   missing amount = false /\
   exists kp pk,
     parseIdentity rt (text_of privateKey) = Some kp /\
     Base58.decode (text_of to) = Some pk /\ length pk = 32%nat /\
     le (parseFloat (text_of amount)) zero = false).
Proof.
  cbv zeta. rewrite send_command_run.
  destruct (missing privateKey) eqn:H1; cbn [orb];
    [split; [eexists; reflexivity | intros H; now contradiction H]|].
  destruct (missing to) eqn:H2; cbn [orb];
    [split; [eexists; reflexivity | intros H; now contradiction H]|].
  destruct (missing amount) eqn:H3;
    [split; [eexists; reflexivity | intros H; now contradiction H]|].
  destruct (parseIdentity rt (text_of privateKey)) as [kp|];
    [|split; [eexists; reflexivity | intros H; now contradiction H]].
  destruct (Base58.decode (text_of to)) as [pk|];
    [|split; [eexists; reflexivity | intros H; now contradiction H]].
  destruct (Nat.eqb_spec (length pk) 32) as [Hl|Hl];
    [|split; [eexists; reflexivity | intros H; now contradiction H]].
  destruct (le (parseFloat (text_of amount)) zero) eqn:Hle;
    [split; [eexists; reflexivity | intros H; now contradiction H]|].
  split.
  - destruct (TransferManager.sendSOL connection kp pk
                (parseFloat (text_of amount)) (wallet_loaded st kp))
      as [[s|e] st']; eexists; reflexivity.
  - intros _. repeat split. exists kp, pk. repeat split; assumption.
Qed.

(** X20. Past its guards the [send] command is one run of [sendSOL], with
    the wallet's keypair, the decoded recipient and the parsed amount: it
    reports the signature [sendSOL] returns or the error [sendSOL] throws,
    and makes the calls of that run. *)
Theorem send_command_runs_sendSOL (key t a : string) (kp : Keypair)
    (pk : PublicKey) :
  missing (Some key) = false -> missing (Some t) = false ->
  missing (Some a) = false ->
  parseIdentity rt key = Some kp ->
  Base58.decode t = Some pk -> length pk = 32%nat ->
  le (parseFloat a) zero = false ->
  let run := send_command rt parseFloat connection
               (Some key) (Some t) (Some a) st in
  let inner := TransferManager.sendSOL connection kp pk (parseFloat a)
                 (wallet_loaded st kp) in
  (forall s, fst run = Return (Sent s) <-> fst inner = Return s) /\
  (forall e, fst run = Return (SendFailed e) <-> fst inner = Throw e) /\
  snd run = snd inner.
Proof.
  intros H1 H2 H3 Hp Hd Hl Hle. cbv zeta. rewrite send_command_run.
  rewrite H1, H2, H3. cbn [orb text_of]. rewrite Hp, Hd, Hl, Hle.
  cbn [Nat.eqb].
  destruct (TransferManager.sendSOL connection kp pk (parseFloat a)
              (wallet_loaded st kp)) as [[s|e] st']; cbn [fst snd].
  - split; [|split; [|reflexivity]].
    + intros s'. split; intros [= <-]; reflexivity.
    + intros e'. split; discriminate.
  - split; [|split; [|reflexivity]].
    + intros s'. split; discriminate.
    + intros e'. split; intros [= <-]; reflexivity.
Qed.

(** X21. An amount text that [parseFloat] cannot read (it gives NaN) is
    not stopped by the guard on the amount: with a valid key and
    recipient the command queries the sender's account on the node, and
    it ends with an error, never with "Amount must be greater than 0" and
    never with a transfer. *)
Theorem send_command_unparsable_amount (key t a : string) (kp : Keypair)
    (pk : PublicKey) :
  missing (Some key) = false -> missing (Some t) = false ->
  missing (Some a) = false ->
  parseIdentity rt key = Some kp ->
  Base58.decode t = Some pk -> length pk = 32%nat ->
  parseFloat a = S754_nan ->
  let run := send_command rt parseFloat connection
               (Some key) (Some t) (Some a) st in
  exists e more,
    fst run = Return (SendFailed e) /\
    calls (snd run) = calls st ++ GetAccountInfo (publicKey kp) :: more /\
    existsb is_submission more = false.
Proof.
  intros H1 H2 H3 Hp Hd Hl Hnan. cbv zeta. rewrite send_command_run.
  rewrite H1, H2, H3. cbn [orb text_of]. rewrite Hp, Hd, Hl, Hnan.
  cbn [Nat.eqb]. change (le S754_nan zero) with false. cbv iota.
  unfold wallet_loaded. run_js.
  change (to_bigint (mul S754_nan LAMPORTS_PER_SOL)) with (@None Z).
  repeat split_answer.
  all: cbn [fst snd calls]; rewrite <- ?app_assoc; cbn [app].
  all: do 2 eexists; split; [reflexivity | split; reflexivity].
Qed.

End Commands.

Lemma send_command_guards_witness :
  let run :=
    send_command example_runtime (fun _ => ratio 1 2)
      (steady_node 1000000000 (Some 5000))
      (Some (Base58.encode (secretKey example_keypair)))
      (Some (toBase58 example_recipient)) (Some "0.5"%string) initial in
  calls (snd run) <> calls initial /\ le (ratio 1 2) zero = false.
Proof.
  intros run.
  assert (H : calls (snd run) <> calls initial).
  { intros H. vm_compute in H. discriminate H. }
  split; [exact H|].
  destruct (proj2 (send_command_guards example_runtime (fun _ => ratio 1 2)
                     (steady_node 1000000000 (Some 5000)) initial
                     (Some (Base58.encode (secretKey example_keypair)))
                     (Some (toBase58 example_recipient))
                     (Some "0.5"%string)) H)
    as (_ & _ & _ & kp & pk & _ & _ & _ & Hle).
  exact Hle.
Defined.

Lemma send_command_runs_sendSOL_witness :
  fst (send_command example_runtime (fun _ => ratio 1 2)
         (steady_node 1000000000 (Some 5000))
         (Some (Base58.encode (secretKey example_keypair)))
         (Some (toBase58 example_recipient)) (Some "0.5"%string) initial)
  = Return (Sent "signature").
Proof.
  apply (proj1 (send_command_runs_sendSOL example_runtime (fun _ => ratio 1 2)
                  (steady_node 1000000000 (Some 5000)) initial
                  (Base58.encode (secretKey example_keypair))
                  (toBase58 example_recipient) "0.5"%string
                  example_keypair example_recipient
                  ltac:(vm_compute; reflexivity) ltac:(vm_compute; reflexivity)
                  eq_refl
                  ltac:(vm_compute; reflexivity) ltac:(vm_compute; reflexivity)
                  eq_refl ltac:(vm_compute; reflexivity))
           "signature"%string).
  vm_compute. reflexivity.
Defined.

Lemma send_command_unparsable_amount_witness :
  exists e more,
    fst (send_command example_runtime (fun _ => S754_nan)
           (steady_node 1000000000 (Some 5000))
           (Some (Base58.encode (secretKey example_keypair)))
           (Some (toBase58 example_recipient)) (Some "abc"%string) initial)
    = Return (SendFailed e) /\
    calls (snd (send_command example_runtime (fun _ => S754_nan)
                  (steady_node 1000000000 (Some 5000))
                  (Some (Base58.encode (secretKey example_keypair)))
                  (Some (toBase58 example_recipient)) (Some "abc"%string)
                  initial))
    = calls initial ++ GetAccountInfo (publicKey example_keypair) :: more /\
    existsb is_submission more = false.
Proof.
  exact (send_command_unparsable_amount example_runtime (fun _ => S754_nan)
           (steady_node 1000000000 (Some 5000)) initial
           (Base58.encode (secretKey example_keypair))
           (toBase58 example_recipient) "abc"%string
           example_keypair example_recipient
           ltac:(vm_compute; reflexivity) ltac:(vm_compute; reflexivity)
           eq_refl
           ltac:(vm_compute; reflexivity) ltac:(vm_compute; reflexivity)
           eq_refl eq_refl).
Defined.

(* ------------------------------------------------------------------------- *)
(** * [truncateAddress] *)

Lemma length_append (a b : string) :
  String.length (a ++ b)%string = (String.length a + String.length b)%nat.
Proof. induction a as [|c a IH]; simpl; [reflexivity | now rewrite IH]. Qed.

Lemma length_substring (s : string) :
  forall n m,
    String.length (substring n m s) = Nat.min m (String.length s - n).
Proof.
  induction s as [|c s IH]; intros [|n] [|m]; simpl; rewrite ?IH;
    try reflexivity; lia.
Qed.

(** X22. The length of what [truncateAddress] returns: the address itself
    when it has at most twice [chars] characters, else twice [chars]
    characters and the three dots; with [chars] zero the whole address
    follows the dots, since [slice(-0)] keeps everything. So the result is
    shorter than the address only from [2 * chars + 4] characters on, and
    may be longer than it. *)
Theorem truncateAddress_length (address : string) (chars : nat) :
  let len := String.length address in
  let out := String.length (truncateAddress address chars) in
  out = (if len <=? chars * 2 then len
         else if chars =? 0 then len + 3 else chars * 2 + 3)%nat /\
  ((out < len)%nat <-> (1 <= chars /\ chars * 2 + 3 < len)%nat) /\
  ((len < out)%nat <->
   (chars * 2 < len /\ (chars = 0 \/ len < chars * 2 + 3))%nat).
Proof.
  cbv zeta. unfold truncateAddress, slice_to, slice_from.
  destruct (Nat.leb_spec (String.length address) (chars * 2)) as [Hle|Hlt].
  - split; [reflexivity | split; lia].
  - rewrite !length_append, !length_substring. cbn [String.length].
    destruct (Nat.eqb_spec chars 0) as [-> | Hc].
    + cbn [Z.of_nat Z.opp Z.ltb Z.compare]. split; [lia | split; lia].
    + destruct (Z.ltb_spec (- Z.of_nat chars) 0) as [Hn|Hn]; [|lia].
      split; [lia | split; lia].
Qed.

(* ------------------------------------------------------------------------- *)
(** * The validity test of a key text, and the fee estimate *)

(** X23. [isValidPrivateKey] never throws and answers [true] exactly on
    the texts the constructor accepts. It is not silent: on an accepted
    text it leaves the constructor's two console lines, the second of
    which shows the public key; on a refused text it prints nothing. *)
Theorem isValidPrivateKey_agrees_with_constructor (rt : Runtime)
    (raw : string) (st : State) :
  let run := WalletManager.isValidPrivateKey rt raw st in
  (fst run = Return true \/ fst run = Return false) /\
  (fst run = Return true <->
   exists w st', WalletManager.constructor rt raw st = (Return w, st')) /\
  calls (snd run) = calls st /\
  console (snd run)
  = console st ++
    match parseIdentity rt raw with
    | Some kp => [LogWalletLoaded; LogPublicKey (toBase58 (publicKey kp))]
    | None => []
    end.
Proof.
  cbv zeta. unfold WalletManager.isValidPrivateKey, try_catch, bind.
  rewrite constructor_refines_parseIdentity.
  destruct (parseIdentity rt raw) as [kp|]; unfold wallet_loaded, ret;
    cbn [fst snd calls console].
  - split; [now left|]. split; [|split; [reflexivity|]].
    + split; [intros _; eexists; eexists; reflexivity | reflexivity].
    + now rewrite <- app_assoc.
  - split; [now right|]. split; [|split; [reflexivity|]].
    + split; [discriminate | intros (w & st' & H); discriminate H].
    + now rewrite app_nil_r.
Qed.

Section FeeEstimate.
Import TransferManager.
Variable connection : Connection.
Variables (from to : PublicKey) (amountSOL : number) (st : State).


End FeeEstimate.

(* ------------------------------------------------------------------------- *)
(** * What the menu shows when a transfer fails *)

Section Menu.
Variable show : number -> string.
Variable range_text : string.
Variable connection : Connection.
Variable st : State.
Variables (w : WalletManager.t) (recipient : string) (pk : PublicKey).
Variable amount : number.
Hypothesis recipient_decodes : Base58.decode recipient = Some pk.
Hypothesis recipient_length : length pk = 32%nat.

Lemma menu_sendSOL_run :
  menu_sendSOL show range_text connection (Some w) recipient amount true st =
  match TransferManager.sendSOL connection (WalletManager.keypair w) pk
          amount st with
  | (Return s, st') => (Return (MenuSent s), st')
  | (Throw e, st') =>
      (Return (MenuFailed (error_message show range_text e)
                 (showErrorHelp (error_message show range_text e))), st')
  end.
Proof.
  unfold menu_sendSOL, try_catch, bind at 1. cbn [negb].
  rewrite PublicKey_new_run, recipient_decodes, recipient_length.
  cbn [Nat.eqb]. unfold bind, ret, WalletManager.getKeypair.
  destruct (TransferManager.sendSOL connection (WalletManager.keypair w) pk
              amount st) as [[s|e] st']; reflexivity.
Qed.


(** X26. In the menu, a sender whose account is owned by a program gets
    the invalid-sender message but not the help written for that very
    situation: the help shown is the unknown-error line. *)
Theorem menu_program_owned_sender_help (info : AccountInfo) :
  rpc_getAccountInfo connection (now st) (publicKey (WalletManager.keypair w))
    = Resolved (Some info) ->
  toBase58 (owner info) <> SYSTEM_PROGRAM_ID ->
  fst (menu_sendSOL show range_text connection (Some w) recipient amount
         true st)
  = Return (MenuFailed
              (message_text show
                 (InvalidSenderAccount (toBase58 (owner info))))
              HelpUnknown).
Proof.
  intros Hq Hne. rewrite menu_sendSOL_run. unfold now in Hq.
  apply String.eqb_neq in Hne.
  run_js. answer Hq. rewrite Hne. cbn [negb fst error_message].
  unfold showErrorHelp.
  destruct (invalid_sender_text_phrases show (owner info)) as [-> ->].
  reflexivity.
Qed.


End Menu.



Lemma menu_program_owned_sender_help_witness :
  let show := fun _ : number => "0.5"%string in
  fst (menu_sendSOL show "not an integer"
         (program_owned_node rfc8032_public)
         (Some {| WalletManager.keypair := example_keypair |})
         (toBase58 example_recipient) (ratio 1 2) true initial)
  = Return (MenuFailed
              (message_text show
                 (InvalidSenderAccount (toBase58 rfc8032_public)))
              HelpUnknown).
Proof.
  intros show.
  apply (menu_program_owned_sender_help show "not an integer"
           (program_owned_node rfc8032_public) initial
           {| WalletManager.keypair := example_keypair |}
           (toBase58 example_recipient) example_recipient (ratio 1 2)
           ltac:(by_computation) eq_refl
           {| owner := rfc8032_public; lamports := 0 |} eq_refl).
  intros E. vm_compute in E. discriminate E.
Defined.

